(** * Custom workflows: collection, sorted view, parameter schema and coercion

    A shallow embedding of [ai_diffusion/custom_workflow.py].  The Qt list
    model is a list of workflow records plus the notifications it emits, the
    workspace is a record threaded through a small state-and-exception monad,
    and Python dictionaries keyed by [str] are finite maps. *)

From Stdlib Require Import ZArith String Ascii List Lia.
From stdpp Require Import base option list gmap strings.

Local Open Scope string_scope.
Local Open Scope Z_scope.

Set Warnings "-register-all".

(** ** Python values

    The values that flow through the module are the ones [json.load] builds
    and the defaults written in the source ([None], [0], [2**31], ["Image"]).
    A float is carried as its binary64 bit pattern: nothing here computes
    with it, only its runtime type is ever inspected. *)

Inductive pyval : Type :=
| VNone
| VBool (b : bool)
| VInt (z : Z)
| VFloat (bits : Z)
| VStr (s : string)
| VList (items : list pyval)
| VDict (items : list (string * pyval)).

(** [type(v)]: the class of a value.  [bool] is a class of its own, so
    [type(True) == type(1)] is false. *)
Inductive pytype : Type :=
| NoneType | PyBool | PyInt | PyFloat | PyStr | PyList | PyDict.

#[global] Instance pytype_eq_dec : EqDecision pytype.
Proof. solve_decision. Defined.

Definition type_of (v : pyval) : pytype :=
  match v with
  | VNone => NoneType
  | VBool _ => PyBool
  | VInt _ => PyInt
  | VFloat _ => PyFloat
  | VStr _ => PyStr
  | VList _ => PyList
  | VDict _ => PyDict
  end.

(** [v is None] *)
Definition is_none (v : pyval) : bool :=
  match v with VNone => true | _ => false end.

(** [d.get(k)]: the stored value, [None] when the key is missing. *)
Definition dict_get (d : gmap string pyval) (k : string) : pyval :=
  match d !! k with Some v => v | None => VNone end.

(** ** Exceptions and results *)

Inductive exn : Type :=
| IndexError
| KeyError (key : string)
| TypeError
| OSError
| JSONDecodeError
| ParseError.

Inductive result (A : Type) : Type :=
| Ok (a : A)
| Raise (e : exn).
Arguments Ok {A} a.
Arguments Raise {A} e.

(** ** Enumerations *)

Inductive WorkflowSource : Type := document | remote | local.

Definition WorkflowSource_value (s : WorkflowSource) : Z :=
  match s with document => 0 | remote => 1 | local => 2 end.

#[global] Instance WorkflowSource_eq_dec : EqDecision WorkflowSource.
Proof. solve_decision. Defined.

Inductive ParamKind : Type := image_layer | mask_layer | number_int.

Definition ParamKind_value (k : ParamKind) : Z :=
  match k with image_layer => 0 | mask_layer => 1 | number_int => 2 end.

#[global] Instance ParamKind_eq_dec : EqDecision ParamKind.
Proof. solve_decision. Defined.

(** ** Parameter descriptors

    [CustomParam] is a NamedTuple; Python does not enforce the annotations,
    and [_gather_params] stores whatever the graph holds, so every field
    after [kind] is a Python value.  The omitted fields default to [None]. *)

Module CustomParam.
Record t : Type := mk {
  kind : ParamKind;
  name : pyval;
  default : pyval;
  min : pyval;
  max : pyval
}.

(** [CustomParam(kind, name)] *)
Definition make2 (k : ParamKind) (n : pyval) : t := mk k n VNone VNone VNone.
End CustomParam.

(** ** Graph representation *)

(** Modelled from the spec: the Graph Representation of
    [ai_diffusion/comfy_workflow.py], which is not among the sources.  A graph
    is traversed node by node in a fixed order; a node has a type tag and a
    keyed input lookup [input(key, default)] that returns the stored value
    when the key is present and [default] otherwise, never raising. *)
Module ComfyNode.
Record t : Type := mk {
  type : string;
  inputs : gmap string pyval
}.

Definition input (node : t) (key : string) (default : pyval) : pyval :=
  match inputs node !! key with
  | Some v => v
  | None => default
  end.
End ComfyNode.

(** Modelled from the spec: a parsed graph, as the sequence of its nodes in
    iteration order. *)
Definition ComfyWorkflow : Type := list ComfyNode.t.

(** ** Parameter extraction *)

(** The body of the loop of [_gather_params]: what one node yields. *)
Definition gather_node (node : ComfyNode.t) : list CustomParam.t :=
  if String.eqb (ComfyNode.type node) "ETN_KritaImageLayer" then
    let name := ComfyNode.input node "name" (VStr "Image") in
    [CustomParam.make2 image_layer name]
  else if String.eqb (ComfyNode.type node) "ETN_KritaMaskLayer" then
    let name := ComfyNode.input node "name" (VStr "Mask") in
    [CustomParam.make2 mask_layer name]
  else if String.eqb (ComfyNode.type node) "ETN_IntParameter" then
    let name := ComfyNode.input node "name" (VStr "Parameter") in
    let default := ComfyNode.input node "default" (VInt 0) in
    let min := ComfyNode.input node "min" (VInt (- (2 ^ 31))) in
    let max := ComfyNode.input node "max" (VInt (2 ^ 31)) in
    [CustomParam.mk number_int name default min max]
  else [].

(** [_gather_params(w)], with the generator run to completion as
    [list(_gather_params(w))] does. *)
Fixpoint _gather_params (w : ComfyWorkflow) : list CustomParam.t :=
  match w with
  | [] => []
  | node :: rest => gather_node node ++ _gather_params rest
  end.

(** ** Parameter coercion *)

(** The local function [use] of [_coerce]. *)
Definition use (value default : pyval) : pyval :=
  if is_none value || negb (bool_decide (type_of value = type_of default))
  then default
  else value.

(** The dict comprehension of [_coerce], one descriptor after the other;
    a later descriptor with the same name overwrites the entry of an earlier
    one.  The dictionaries are [dict[str, Any]]: a descriptor whose name is
    not a [str] is outside what this map can hold, and the result is [None]
    there. *)
Fixpoint coerce_into (params acc : gmap string pyval)
    (types : list CustomParam.t) : option (gmap string pyval) :=
  match types with
  | [] => Some acc
  | t :: rest =>
      match CustomParam.name t with
      | VStr k =>
          coerce_into params
            (<[k := use (dict_get params k) (CustomParam.default t)]> acc) rest
      | _ => None
      end
  end.

Definition _coerce (params : gmap string pyval) (types : list CustomParam.t)
  : option (gmap string pyval) :=
  coerce_into params ∅ types.

(** ** Python sequences *)

(** The position a Python index denotes in a sequence of length [len l]:
    [0 .. len-1] count from the front, [-len .. -1] from the back, anything
    else is out of range. *)
Definition py_index {A : Type} (l : list A) (i : Z) : option nat :=
  let n := Z.of_nat (length l) in
  if (0 <=? i) && (i <? n) then Some (Z.to_nat i)
  else if (- n <=? i) && (i <? 0) then Some (Z.to_nat (n + i))
  else None.

(** [l[i]], raising [IndexError] out of range. *)
Definition py_getitem {A : Type} (l : list A) (i : Z) : result A :=
  match py_index l i with
  | Some k => match l !! k with Some x => Ok x | None => Raise IndexError end
  | None => Raise IndexError
  end.

(** [s.endswith(suffix)] and [s.removesuffix(suffix)] on [str]. *)
Definition endswith (s suffix : string) : bool :=
  let n := String.length s in
  let m := String.length suffix in
  (m <=? n)%nat && String.eqb (substring (n - m) m s) suffix.

Definition removesuffix (s suffix : string) : string :=
  if negb (String.eqb suffix "") && endswith s suffix
  then substring 0 (String.length s - String.length suffix) s
  else s.

(** ** Workflows *)

Module CustomWorkflow.
Record t : Type := mk {
  id : string;
  source : WorkflowSource;
  graph : pyval;
  path : option string
}.

(** [CustomWorkflow(id, source, graph)]: [path] takes its default. *)
Definition make3 (i : string) (s : WorkflowSource) (g : pyval) : t :=
  mk i s g None.

Definition name (w : t) : string := removesuffix (id w) ".json".

(** [wf.graph = g] *)
Definition with_graph (g : pyval) (w : t) : t :=
  mk (id w) (source w) g (path w).
End CustomWorkflow.

(** ** Qt model indices and notifications *)

(** Modelled from the spec: the position handle of the list model (Qt's
    [QModelIndex]).  [QModelIndex()] is the invalid index, whose [row()] is
    [-1]; [self.index(i)] is the valid index of row [i]. *)
Inductive QModelIndex : Type :=
| InvalidIndex
| RowIndex (r : nat).

Definition isValid (idx : QModelIndex) : bool :=
  match idx with InvalidIndex => false | RowIndex _ => true end.

Definition row (idx : QModelIndex) : Z :=
  match idx with InvalidIndex => -1 | RowIndex r => Z.of_nat r end.

(** The notifications of the list model: [rowsInserted(first, last)], sent
    by [endInsertRows], and [dataChanged(topLeft, bottomRight)]. *)
Inductive Signal : Type :=
| rowsInserted (first last : nat)
| dataChanged (topLeft bottomRight : QModelIndex).

(** The two item roles [data] answers, with Qt's values:
    [Qt.ItemDataRole.DisplayRole] and [Qt.ItemDataRole.UserRole]. *)
Definition DisplayRole : Z := 0.
Definition UserRole : Z := 256.

(** ** External collaborators *)

(** Modelled from the spec: the compute backend ([ai_diffusion/connection.py]
    is not among the sources).  [workflows] is its published mapping from
    workflow id to raw graph, in the dictionary's iteration order. *)
Module Connection.
Record t : Type := mk { workflows : list (string * pyval) }.

(** [connection.workflows.keys()] *)
Definition keys (c : t) : list string := (workflows c).*1.

(** [connection.workflows[id]] *)
Fixpoint lookup_in (l : list (string * pyval)) (id : string) : result pyval :=
  match l with
  | [] => Raise (KeyError id)
  | (k, g) :: rest => if String.eqb k id then Ok g else lookup_in rest id
  end.

Definition getitem (c : t) (id : string) : result pyval :=
  lookup_in (workflows c) id.
End Connection.

(** A file the directory scan [folder.glob("*.json")] yields: its [stem] and
    what [file.open] followed by [json.load] gives, a parsed document or the
    exception one of the two raised. *)
Module LocalFile.
Record t : Type := mk {
  stem : string;
  content : result pyval
}.
End LocalFile.

(** An entry written by [log.exception]: the file and the exception. *)
Record LogEntry : Type := mkLog {
  log_file : LocalFile.t;
  log_error : exn
}.

(** ** The workflow collection *)

Module WorkflowCollection.
(** The list model: [self._workflows].  A method returns the new state
    together with the notifications it emitted, in order. *)
Record t : Type := mk { _workflows : list CustomWorkflow.t }.

Definition rowCount (c : t) : nat := length (_workflows c).

(** [data(index, role)]: the name for the display role, the id for the user
    role, [None] (the function falls off its end) for any other role, in
    which case the list is not even read. *)
Definition data (c : t) (index : QModelIndex) (role : Z)
  : result (option string) :=
  if role =? DisplayRole then
    match py_getitem (_workflows c) (row index) with
    | Ok wf => Ok (Some (CustomWorkflow.name wf))
    | Raise e => Raise e
    end
  else if role =? UserRole then
    match py_getitem (_workflows c) (row index) with
    | Ok wf => Ok (Some (CustomWorkflow.id wf))
    | Raise e => Raise e
    end
  else Ok None.

(** [append]: [endInsertRows] announces the new row [end]. *)
Definition append (item : CustomWorkflow.t) (c : t) : t * list Signal :=
  let end_ := length (_workflows c) in
  (mk (_workflows c ++ [item]), [rowsInserted end_ end_]).

(** [set_graph]: the entry at [index.row()] is mutated in place, then
    [dataChanged] is emitted for that index. *)
Definition set_graph (index : QModelIndex) (graph : pyval) (c : t)
  : result (t * list Signal) :=
  match py_index (_workflows c) (row index) with
  | Some k =>
      Ok (mk (alter (CustomWorkflow.with_graph graph) k (_workflows c)),
          [dataChanged index index])
  | None => Raise IndexError
  end.

(** The loop of [find_index] over [enumerate(self._workflows)], from
    position [i] on. *)
Fixpoint find_index_from (i : nat) (l : list CustomWorkflow.t) (id : string)
  : QModelIndex :=
  match l with
  | [] => InvalidIndex
  | wf :: rest =>
      if String.eqb (CustomWorkflow.id wf) id then RowIndex i
      else find_index_from (S i) rest id
  end.

Definition find_index (c : t) (id : string) : QModelIndex :=
  find_index_from 0 (_workflows c) id.

(** [find]: the entry, or [None]. *)
Definition find (c : t) (id : string) : result (option CustomWorkflow.t) :=
  let idx := find_index c id in
  if isValid idx then
    match py_getitem (_workflows c) (row idx) with
    | Ok wf => Ok (Some wf)
    | Raise e => Raise e
    end
  else Ok None.

Definition get (c : t) (id : string) : result CustomWorkflow.t :=
  match find c id with
  | Ok (Some wf) => Ok wf
  | Ok None => Raise (KeyError id)
  | Raise e => Raise e
  end.

(** [__getitem__] and [__len__] *)
Definition __getitem__ (c : t) (index : Z) : result CustomWorkflow.t :=
  py_getitem (_workflows c) index.

Definition __len__ (c : t) : nat := length (_workflows c).

Definition _process (workflow : CustomWorkflow.t) (c : t)
  : result (t * list Signal) :=
  let idx := find_index c (CustomWorkflow.id workflow) in
  if isValid idx then set_graph idx (CustomWorkflow.graph workflow) c
  else Ok (append workflow c).

Definition _process_remote_workflow (connection : Connection.t)
    (id : string) (c : t) : result (t * list Signal) :=
  match Connection.getitem connection id with
  | Ok graph => _process (CustomWorkflow.make3 id remote graph) c
  | Raise e => Raise e
  end.

Definition _process_file (file : LocalFile.t) (c : t)
  : result (t * list Signal) :=
  match LocalFile.content file with
  | Ok data => _process (CustomWorkflow.make3 (LocalFile.stem file) local data) c
  | Raise e => Raise e
  end.

(** The first loop of [__init__]: every file is tried, an exception is
    logged and the loop goes on with the next file.  Nothing is connected
    to the model's signals yet. *)
Fixpoint load_files (files : list LocalFile.t) (c : t) (log : list LogEntry)
  : t * list LogEntry :=
  match files with
  | [] => (c, log)
  | file :: rest =>
      match _process_file file c with
      | Ok (c', _) => load_files rest c' log
      | Raise e => load_files rest c (log ++ [mkLog file e])
      end
  end.

(** The second loop of [__init__], over [connection.workflows.keys()];
    nothing catches an exception here. *)
Fixpoint load_remote (connection : Connection.t) (ids : list string) (c : t)
  : result t :=
  match ids with
  | [] => Ok c
  | wf :: rest =>
      match _process_remote_workflow connection wf c with
      | Ok (c', _) => load_remote connection rest c'
      | Raise e => Raise e
      end
  end.

(** [WorkflowCollection(connection, folder)], with the files the scan of
    the folder yields; the log is what [__init__] wrote. *)
Definition __init__ (connection : Connection.t) (files : list LocalFile.t)
  : result t * list LogEntry :=
  let '(c, log) := load_files files (mk []) [] in
  (load_remote connection (Connection.keys connection) c, log).
End WorkflowCollection.

(** ** The sorted view *)

Module SortedWorkflows.
(** The comparison of [lessThan] on the two entries it fetched.  [l.name <
    r.name] is Python's [str] order: code point by code point, which on
    UTF-8 encoded strings is the byte-wise order of [String.ltb]. *)
Definition less (l r : CustomWorkflow.t) : bool :=
  if bool_decide (CustomWorkflow.source l = CustomWorkflow.source r)
  then String.ltb (CustomWorkflow.name l) (CustomWorkflow.name r)
  else WorkflowSource_value (CustomWorkflow.source l)
       <? WorkflowSource_value (CustomWorkflow.source r).

Definition lessThan (workflows : WorkflowCollection.t)
    (left right : QModelIndex) : result bool :=
  match WorkflowCollection.__getitem__ workflows (row left) with
  | Raise e => Raise e
  | Ok l =>
      match WorkflowCollection.__getitem__ workflows (row right) with
      | Raise e => Raise e
      | Ok r => Ok (less l r)
      end
  end.
End SortedWorkflows.

(** ** The active workspace *)

Module CustomWorkspace.
(** The signals the workspace emits itself in this file. *)
Inductive WsSignal : Type :=
| workflow_id_changed (id : string)
| modified (property : string)
| graph_changed.

(** [self._workflow] is a reference to an entry of the collection, not a
    copy: [WorkflowCollection.set_graph] mutates that same object.  Rows
    are never removed or moved, so the reference is kept as the row of the
    entry. *)
Record t : Type := mk {
  _workflow_id : string;
  _params : gmap string pyval;
  _workflow : option nat;
  _graph : option ComfyWorkflow;
  _metadata : list CustomParam.t;
  emitted : list WsSignal
}.

(** The model, the workspace observing it, and the exceptions that left a
    slot.  A slot runs inside the [emit] of the model; an exception it
    raises does not travel back through [emit] into the emitter but is
    handed to the interpreter's exception hook. *)
Record System : Type := mkSystem {
  workflows : WorkflowCollection.t;
  workspace : t;
  reported : list exn
}.

(** State and exceptions: what was written before a [raise] stays. *)
Definition M (A : Type) : Type := System -> result A * System.

Definition ret {A : Type} (a : A) : M A := fun s => (Ok a, s).

Definition bind {A B : Type} (m : M A) (k : A -> M B) : M B :=
  fun s =>
    match m s with
    | (Ok a, s') => k a s'
    | (Raise e, s') => (Raise e, s')
    end.

Definition raise {A : Type} (e : exn) : M A := fun s => (Raise e, s).

Definition lift {A : Type} (r : result A) : M A := fun s => (r, s).

Definition gets {A : Type} (f : System -> A) : M A := fun s => (Ok (f s), s).

(** Reading the state with an operation that may raise. *)
Definition reads {A : Type} (f : System -> result A) : M A :=
  fun s => (f s, s).

Definition modify_workspace (f : t -> t) : M unit :=
  fun s => (Ok tt, mkSystem (workflows s) (f (workspace s)) (reported s)).

Definition put_workflows (c : WorkflowCollection.t) : M unit :=
  fun s => (Ok tt, mkSystem c (workspace s) (reported s)).

(** Running a slot for an emitted signal. *)
Definition in_slot (m : M unit) : M unit :=
  fun s =>
    match m s with
    | (Ok _, s') => (Ok tt, s')
    | (Raise e, s') =>
        (Ok tt, mkSystem (workflows s') (workspace s') (reported s' ++ [e]))
    end.

Notation "x <- m ;; k" := (bind m (fun x => k))
  (at level 100, m at next level, right associativity).
Notation "m ;;; k" := (bind m (fun _ => k))
  (at level 100, right associativity).

Definition set_workflow_id_field (id : string) (w : t) : t :=
  mk id (_params w) (_workflow w) (_graph w) (_metadata w) (emitted w).
Definition set_params (p : gmap string pyval) (w : t) : t :=
  mk (_workflow_id w) p (_workflow w) (_graph w) (_metadata w) (emitted w).
Definition set_workflow (r : option nat) (w : t) : t :=
  mk (_workflow_id w) (_params w) r (_graph w) (_metadata w) (emitted w).
Definition set_graph_field (g : option ComfyWorkflow) (w : t) : t :=
  mk (_workflow_id w) (_params w) (_workflow w) g (_metadata w) (emitted w).
Definition set_metadata (md : list CustomParam.t) (w : t) : t :=
  mk (_workflow_id w) (_params w) (_workflow w) (_graph w) md (emitted w).
Definition emit (sig : WsSignal) (w : t) : t :=
  mk (_workflow_id w) (_params w) (_workflow w) (_graph w) (_metadata w)
     (emitted w ++ [sig]).

(** The entry [self._workflow] refers to. *)
Definition workflow (s : System) : option CustomWorkflow.t :=
  r ← _workflow (workspace s);
  WorkflowCollection._workflows (workflows s) !! r.

Definition graph (s : System) : option ComfyWorkflow :=
  _graph (workspace s).

Section WithGraphParser.
(** [ComfyWorkflow.import_graph], of [ai_diffusion/comfy_workflow.py]:
    the parse of a raw payload into the graph representation, raising
    when the payload is not graph-shaped. *)
Variable import_graph : pyval -> result ComfyWorkflow.

(** The [workflow] property of [CustomWorkflow]: the parse of its graph. *)
Definition parsed (wf : CustomWorkflow.t) : result ComfyWorkflow :=
  import_graph (CustomWorkflow.graph wf).

(** [self._workflows[idx.row()]], with the row it resolved to. *)
Definition entry_at (idx : QModelIndex) : M (nat * CustomWorkflow.t) :=
  l <- gets (fun s => WorkflowCollection._workflows (workflows s));;
  match py_index l (row idx) with
  | Some k =>
      match l !! k with
      | Some wf => ret (k, wf)
      | None => raise IndexError
      end
  | None => raise IndexError
  end.

Definition _update_workflow (idx : QModelIndex) : M unit :=
  e <- entry_at idx;;
  let '(k, wf) := e in
  current <- gets (fun s => _workflow_id (workspace s));;
  if String.eqb (CustomWorkflow.id wf) current then
    modify_workspace (set_workflow (Some k));;;
    g <- lift (parsed wf);;
    modify_workspace (set_graph_field (Some g));;;
    modify_workspace (set_metadata (_gather_params g));;;
    params <- gets (fun s => _params (workspace s));;
    match _coerce params (_gather_params g) with
    | Some coerced =>
        modify_workspace (set_params coerced);;;
        modify_workspace (emit graph_changed)
    | None =>
        (* a name that cannot be a key of [dict[str, Any]]; Python raises
           [TypeError] for the unhashable ones *)
        raise TypeError
    end
  else ret tt.

(** The setter of the [workflow_id] property. *)
Definition _set_workflow_id (id : string) : M unit :=
  current <- gets (fun s => _workflow_id (workspace s));;
  if String.eqb current id then ret tt
  else
    modify_workspace (set_workflow_id_field id);;;
    modify_workspace (emit (workflow_id_changed id));;;
    modify_workspace (emit (modified "workflow_id"));;;
    idx <- gets (fun s => WorkflowCollection.find_index (workflows s) id);;
    _update_workflow idx.

Definition _set_default_workflow : M unit :=
  current <- gets (fun s => _workflow_id (workspace s));;
  n <- gets (fun s => WorkflowCollection.__len__ (workflows s));;
  if String.eqb current "" && (0 <? n)%nat then
    first <- reads (fun s => WorkflowCollection.__getitem__ (workflows s) 0);;
    _set_workflow_id (CustomWorkflow.id first)
  else ret tt.

(** The slots connected in [__init__]: [dataChanged] runs
    [_update_workflow], [rowsInserted] runs [_set_default_workflow]. *)
Definition slot (sig : Signal) : M unit :=
  match sig with
  | dataChanged topLeft _ => in_slot (_update_workflow topLeft)
  | rowsInserted _ _ => in_slot _set_default_workflow
  end.

Fixpoint deliver (sigs : list Signal) : M unit :=
  match sigs with
  | [] => ret tt
  | sig :: rest => slot sig;;; deliver rest
  end.

(** A method of the collection, run with the workspace listening. *)
Definition on_collection
    (method : WorkflowCollection.t -> result (WorkflowCollection.t * list Signal))
  : M unit :=
  c <- gets workflows;;
  out <- lift (method c);;
  put_workflows out.1;;;
  deliver out.2.

(** [CustomWorkspace(workflows)] *)
Definition __init__ (c : WorkflowCollection.t) : result unit * System :=
  _set_default_workflow (mkSystem c (mk "" ∅ None None [] []) []).

(** [CustomWorkspace.set_graph]: bind the document's workflow. *)
Definition set_graph (id : string) (graph : pyval) : M unit :=
  found <- reads (fun s => WorkflowCollection.find (workflows s) id);;
  match found with
  | None =>
      on_collection (fun c =>
        Ok (WorkflowCollection.append
              (CustomWorkflow.make3 id document graph) c))
  | Some _ => ret tt
  end;;;
  _set_workflow_id id.

(** The backend published workflow [id]: the slot of
    [workflow_published]. *)
Definition _process_remote_workflow (connection : Connection.t)
    (id : string) : M unit :=
  on_collection (WorkflowCollection._process_remote_workflow connection id).
End WithGraphParser.
End CustomWorkspace.

(** * Specification-side notions and sample data *)

(** Does descriptor [t] carry the [str] name [k]? *)
Definition has_name (k : string) (t : CustomParam.t) : bool :=
  match CustomParam.name t with
  | VStr s => String.eqb s k
  | _ => false
  end.

(** The descriptor whose entry is the one left under key [k] once the
    comprehension has run: the last one named [k]. *)
Fixpoint deciding (k : string) (types : list CustomParam.t)
  : option CustomParam.t :=
  match types with
  | [] => None
  | t :: rest =>
      match deciding k rest with
      | Some t' => Some t'
      | None => if has_name k t then Some t else None
      end
  end.

(** What the spec's words ask of one entry: the stored value when the key
    is present and of the kind of the default, the default otherwise. *)
Definition kept_or_default (params : gmap string pyval) (k : string)
    (default : pyval) : pyval :=
  match params !! k with
  | Some v => if decide (type_of v = type_of default) then v else default
  | None => default
  end.

(** Sample data: the stored values [{"Steps": 5, "Extra": "x"}] and a schema
    with the single integer parameter [Steps]. *)
Definition sample_params : gmap string pyval :=
  <["Steps" := VInt 5]> (<["Extra" := VStr "x"]> ∅).

Definition sample_schema : list CustomParam.t :=
  [CustomParam.mk number_int (VStr "Steps") (VInt 20) (VInt 1) (VInt 100)].

(** The unconditional reading: whatever was stored, the name of every layer
    descriptor ends up mapped to [None]. *)
Definition layer_names_map_to_None (params : gmap string pyval)
    (types : list CustomParam.t) : Prop :=
  ∀ t k, t ∈ types →
         CustomParam.kind t ≠ number_int →
         CustomParam.name t = VStr k →
         ∃ out : gmap string pyval,
           _coerce params types = Some out ∧ out !! k = Some VNone.

(** A graph in which an image layer and an integer parameter share the name
    ["x"], and a stored integer for that name. *)
Definition clash_graph : ComfyWorkflow :=
  [ComfyNode.mk "ETN_KritaImageLayer" {[ "name" := VStr "x" ]};
   ComfyNode.mk "ETN_IntParameter" {[ "name" := VStr "x" ]}].

Definition clash_params : gmap string pyval := {[ "x" := VInt 5 ]}.

(** A graph with an image layer ["x"] and a mask layer ["m"], and a stored
    string under ["x"]. *)
Definition layers_graph : ComfyWorkflow :=
  [ComfyNode.mk "ETN_KritaImageLayer" {[ "name" := VStr "x" ]};
   ComfyNode.mk "ETN_KritaMaskLayer" {[ "name" := VStr "m" ]}].

Definition layers_params : gmap string pyval := {[ "x" := VStr "layer 1" ]}.

(** The descriptor the spec's words give for one node: the value of an input
    when the node stores one, the stated fallback otherwise. *)
Definition input_or (node : ComfyNode.t) (key : string) (fallback : pyval)
  : pyval :=
  default fallback (ComfyNode.inputs node !! key).

Definition descriptor_of (node : ComfyNode.t) : option CustomParam.t :=
  if decide (ComfyNode.type node = "ETN_KritaImageLayer") then
    Some {| CustomParam.kind := image_layer;
            CustomParam.name := input_or node "name" (VStr "Image");
            CustomParam.default := VNone;
            CustomParam.min := VNone;
            CustomParam.max := VNone |}
  else if decide (ComfyNode.type node = "ETN_KritaMaskLayer") then
    Some {| CustomParam.kind := mask_layer;
            CustomParam.name := input_or node "name" (VStr "Mask");
            CustomParam.default := VNone;
            CustomParam.min := VNone;
            CustomParam.max := VNone |}
  else if decide (ComfyNode.type node = "ETN_IntParameter") then
    Some {| CustomParam.kind := number_int;
            CustomParam.name := input_or node "name" (VStr "Parameter");
            CustomParam.default := input_or node "default" (VInt 0);
            CustomParam.min := input_or node "min" (VInt (-2147483648));
            CustomParam.max := input_or node "max" (VInt 2147483648) |}
  else None.

(** The ids of the collection, row by row. *)
Definition ids (c : WorkflowCollection.t) : list string :=
  CustomWorkflow.id <$> WorkflowCollection._workflows c.

(** A collection holding the local workflow ["a"], and a remote workflow
    arriving under the same id. *)
Definition one_local : WorkflowCollection.t :=
  WorkflowCollection.mk [CustomWorkflow.make3 "a" local (VInt 1)].

Definition same_id_remote : CustomWorkflow.t :=
  CustomWorkflow.make3 "a" remote (VInt 2).

(** The overwriting reading: the entry found under the arriving id ends up
    with the arriving graph and the arriving origin. *)
Definition arrival_overwrites_origin (c : WorkflowCollection.t)
    (w : CustomWorkflow.t) : Prop :=
  ∀ r wf,
    WorkflowCollection._workflows c !! r = Some wf →
    CustomWorkflow.id wf = CustomWorkflow.id w →
    ∃ c' sigs wf',
      WorkflowCollection._process w c = Ok (c', sigs) ∧
      WorkflowCollection._workflows c' !! r = Some wf' ∧
      CustomWorkflow.graph wf' = CustomWorkflow.graph w ∧
      CustomWorkflow.source wf' = CustomWorkflow.source w.

(** What can reach the collection: a file of the initial scan, a workflow the
    backend published, a workflow bound by the document. *)
Inductive Arrival : Type :=
| FromFile (file : LocalFile.t)
| FromRemote (connection : Connection.t) (id : string)
| FromDocument (id : string) (graph : pyval).

(** What an arrival does to the collection: [_process_file] and
    [_process_remote_workflow] as they are, and the part of
    [CustomWorkspace.set_graph] that touches the collection.  An exception
    leaves the collection as it was. *)
Definition ingest (a : Arrival) (c : WorkflowCollection.t)
  : WorkflowCollection.t :=
  match a with
  | FromFile file =>
      match WorkflowCollection._process_file file c with
      | Ok (c', _) => c'
      | Raise _ => c
      end
  | FromRemote connection id =>
      match WorkflowCollection._process_remote_workflow connection id c with
      | Ok (c', _) => c'
      | Raise _ => c
      end
  | FromDocument id graph =>
      match WorkflowCollection.find c id with
      | Ok None =>
          (WorkflowCollection.append (CustomWorkflow.make3 id document graph) c).1
      | _ => c
      end
  end.

Definition ingest_all (arrivals : list Arrival) (c : WorkflowCollection.t)
  : WorkflowCollection.t :=
  foldl (λ acc a, ingest a acc) c arrivals.

(** The workflow an arrival carries, when it carries one. *)
Definition arriving (a : Arrival) : option CustomWorkflow.t :=
  match a with
  | FromFile file =>
      match LocalFile.content file with
      | Ok data => Some (CustomWorkflow.make3 (LocalFile.stem file) local data)
      | Raise _ => None
      end
  | FromRemote connection id =>
      match Connection.getitem connection id with
      | Ok graph => Some (CustomWorkflow.make3 id remote graph)
      | Raise _ => None
      end
  | FromDocument id graph => Some (CustomWorkflow.make3 id document graph)
  end.

(** The diagnostics of a scan: one per file that failed to load, in order. *)
Definition failures (files : list LocalFile.t) : list LogEntry :=
  omap (λ file, match LocalFile.content file with
                | Raise e => Some (mkLog file e)
                | Ok _ => None
                end) files.

(** A workspace computation that leaves the collection alone. *)
Definition keeps_workflows {A : Type} (m : CustomWorkspace.M A) : Prop :=
  ∀ s, CustomWorkspace.workflows (m s).2 = CustomWorkspace.workflows s.

(** A scan that finds one corrupt and one valid file, and a backend that has
    published nothing. *)
Definition corrupt_file : LocalFile.t := LocalFile.mk "broken" (Raise JSONDecodeError).
Definition valid_file : LocalFile.t := LocalFile.mk "portrait" (Ok (VDict [])).
Definition silent_backend : Connection.t := Connection.mk [].

(** The comparator in the spec's words: origin value ascending, then names
    ascending without regard to case.  Case is folded on the ASCII letters,
    which is all the names below need. *)
Definition ascii_lower (a : ascii) : ascii :=
  let n := nat_of_ascii a in
  if (65 <=? n)%nat && (n <=? 90)%nat then ascii_of_nat (n + 32) else a.

Fixpoint lower (s : string) : string :=
  match s with
  | EmptyString => EmptyString
  | String a rest => String (ascii_lower a) (lower rest)
  end.

Definition less_ignoring_case (l r : CustomWorkflow.t) : bool :=
  if bool_decide (CustomWorkflow.source l = CustomWorkflow.source r)
  then String.ltb (lower (CustomWorkflow.name l)) (lower (CustomWorkflow.name r))
  else WorkflowSource_value (CustomWorkflow.source l)
       <? WorkflowSource_value (CustomWorkflow.source r).

(** Two local workflows whose names differ in case. *)
Definition upper_B : CustomWorkflow.t := CustomWorkflow.make3 "B" local (VDict []).
Definition lower_a : CustomWorkflow.t := CustomWorkflow.make3 "a" local (VDict []).

(** The workspace as [__init__] leaves it over an empty collection. *)
Definition fresh_workspace : CustomWorkspace.t :=
  CustomWorkspace.mk "" ∅ None None [] [].

Definition empty_system : CustomWorkspace.System :=
  CustomWorkspace.mkSystem (WorkflowCollection.mk []) fresh_workspace [].

(** What happens to a running system: the backend publishes a workflow, the
    document binds a graph, the user selects a workflow. *)
Inductive Event : Type :=
| Published (connection : Connection.t) (id : string)
| Bound (id : string) (graph : pyval)
| Selected (id : string).

(** The arrival an event brings to the collection, if any. *)
Definition arrival_of (ev : Event) : option Arrival :=
  match ev with
  | Published connection id => Some (FromRemote connection id)
  | Bound id graph => Some (FromDocument id graph)
  | Selected _ => None
  end.

Definition handle (import_graph : pyval -> result ComfyWorkflow) (ev : Event)
  : CustomWorkspace.M unit :=
  match ev with
  | Published connection id =>
      CustomWorkspace._process_remote_workflow import_graph connection id
  | Bound id graph => CustomWorkspace.set_graph import_graph id graph
  | Selected id => CustomWorkspace._set_workflow_id import_graph id
  end.

(** Events are handled one after the other; an exception that reaches the
    event loop ends the handling of that event only. *)
Fixpoint run (import_graph : pyval -> result ComfyWorkflow)
    (events : list Event) (s : CustomWorkspace.System) : CustomWorkspace.System :=
  match events with
  | [] => s
  | ev :: rest => run import_graph rest (handle import_graph ev s).2
  end.

(** A collection of three workflows, one per origin. *)
Definition three_origins : WorkflowCollection.t :=
  WorkflowCollection.mk
    [CustomWorkflow.make3 "b" local (VInt 1);
     CustomWorkflow.make3 "a.json" remote (VInt 2);
     CustomWorkflow.make3 "z" document (VInt 3)].

(** A remote workflow under an id [three_origins] does not hold. *)
Definition new_remote : CustomWorkflow.t :=
  CustomWorkflow.make3 "n" remote (VInt 4).

(** An integer parameter [Steps] with default 20 and bounds 1 and 100, and
    stored values that lie outside the bounds. *)
Definition steps_schema : list CustomParam.t :=
  [CustomParam.mk number_int (VStr "Steps") (VInt 20) (VInt 1) (VInt 100)].

Definition out_of_bounds_params : gmap string pyval := {[ "Steps" := VInt 5000 ]}.

(** A graph without any parameter node. *)
Definition plain_graph : ComfyWorkflow :=
  [ComfyNode.mk "KSampler" {[ "steps" := VInt 20 ]};
   ComfyNode.mk "SaveImage" ∅].

(** A stand-in for the graph parser in examples: a JSON object parses to a
    graph with the one integer parameter [Steps], anything else is rejected. *)
Definition sample_import (payload : pyval) : result ComfyWorkflow :=
  match payload with
  | VDict _ => Ok [ComfyNode.mk "ETN_IntParameter" {[ "name" := VStr "Steps" ]}]
  | _ => Raise ParseError
  end.

(** A running system: two workflows, the second one selected and resolved,
    with a stored value for [Steps]. *)
Definition running_system : CustomWorkspace.System :=
  CustomWorkspace.mkSystem
    (WorkflowCollection.mk
       [CustomWorkflow.make3 "first" local (VDict []);
        CustomWorkflow.make3 "second" remote (VDict [])])
    (CustomWorkspace.mk "second" {[ "Steps" := VInt 7 ]} (Some 1%nat)
       (Some [ComfyNode.mk "ETN_IntParameter" {[ "name" := VStr "Steps" ]}])
       [CustomParam.mk number_int (VStr "Steps") (VInt 0)
          (VInt (-2147483648)) (VInt 2147483648)]
       [])
    [].

(** What the backend holds when it publishes: a well-formed graph under
    ["second"] and ["third"], a malformed one under ["broken"]. *)
Definition publishing_backend : Connection.t :=
  Connection.mk [("second", VDict [("1", VDict [])]);
                 ("third", VDict []);
                 ("broken", VInt 0)].

(** A backend whose graph under ["second"] is malformed. *)
Definition broken_backend : Connection.t :=
  Connection.mk [("second", VInt 0)].

(** The one-parameter graph [sample_import] produces, and its schema. *)
Definition steps_graph : ComfyWorkflow :=
  [ComfyNode.mk "ETN_IntParameter" {[ "name" := VStr "Steps" ]}].

(** A system whose selected id names no entry of the collection. *)
Definition dangling_system : CustomWorkspace.System :=
  CustomWorkspace.mkSystem
    (WorkflowCollection.mk [CustomWorkflow.make3 "first" local (VDict [])])
    (CustomWorkspace.mk "ghost" ∅ None None [] [])
    [].

(** Row [r] is the first row of the collection holding [id]. *)
Definition first_row (c : WorkflowCollection.t) (id : string) (r : nat) : Prop :=
  (∃ wf, WorkflowCollection._workflows c !! r = Some wf ∧
         CustomWorkflow.id wf = id) ∧
  ∀ j wf', (j < r)%nat → WorkflowCollection._workflows c !! j = Some wf' →
           CustomWorkflow.id wf' ≠ id.

(** The graph stored at a row. *)
Definition graph_at (c : WorkflowCollection.t) (r : nat) : option pyval :=
  CustomWorkflow.graph <$> WorkflowCollection._workflows c !! r.

(** A backend that has published a graph under the stem of [valid_file]. *)
Definition overlapping_backend : Connection.t :=
  Connection.mk [("portrait", VInt 5)].

(** The schema the workspace holds is the one of the graph it holds, and is
    empty while it holds none. *)
Definition schema_of_graph (w : CustomWorkspace.t) : Prop :=
  CustomWorkspace._metadata w
  = match CustomWorkspace._graph w with
    | Some g => _gather_params g
    | None => []
    end.

(** A computation that keeps [schema_of_graph], whatever its outcome. *)
Definition keeps_schema {A : Type} (m : CustomWorkspace.M A) : Prop :=
  ∀ s, schema_of_graph (CustomWorkspace.workspace s) →
       schema_of_graph (CustomWorkspace.workspace (m s).2).

(** * Properties *)

(** ** Coercion of parameter values *)

Section Coercion.
Implicit Types (params acc out : gmap string pyval).
Implicit Types (types : list CustomParam.t) (t : CustomParam.t).
Implicit Types (k : string).

Lemma has_name_true k t : has_name k t = true ↔ CustomParam.name t = VStr k.
Proof.
  unfold has_name. destruct (CustomParam.name t) as [| | | |s| |]; try (split; [discriminate | congruence]).
  rewrite String.eqb_eq. split; congruence.
Qed.

Lemma use_kept_or_default params k d :
  use (dict_get params k) d = kept_or_default params k d.
Proof.
  unfold use, dict_get, kept_or_default.
  destruct (params !! k) as [v|]; [|done].
  destruct v, d; simpl; try done.
Qed.

Lemma coerce_into_total params acc types :
  Forall (λ t, ∃ k, CustomParam.name t = VStr k) types →
  is_Some (coerce_into params acc types).
Proof.
  intros Hstr. revert acc.
  induction Hstr as [|t rest [k Hk] _ IH]; intros acc; simpl; [by eexists|].
  rewrite Hk. apply IH.
Qed.

Lemma coerce_into_lookup params acc types out k :
  coerce_into params acc types = Some out →
  out !! k =
    match deciding k types with
    | Some t => Some (use (dict_get params k) (CustomParam.default t))
    | None => acc !! k
    end.
Proof.
  revert acc. induction types as [|t rest IH]; intros acc Hrun; simpl in *.
  - by inversion Hrun.
  - destruct (CustomParam.name t) as [| | | |s| |] eqn:Hname; try discriminate.
    rewrite (IH _ Hrun).
    destruct (deciding k rest) as [t'|]; [done|].
    unfold has_name. rewrite Hname.
    destruct (String.eqb_spec s k) as [->|Hne].
    + by rewrite lookup_insert_eq.
    + by rewrite lookup_insert_ne.
Qed.

Lemma deciding_Some k types t :
  deciding k types = Some t → t ∈ types ∧ CustomParam.name t = VStr k.
Proof.
  induction types as [|t0 rest IH]; simpl; [done|].
  destruct (deciding k rest) as [t'|].
  - intros [= ->]. destruct IH as [Hin Hn]; [done|]. split; [by right | done].
  - destruct (has_name k t0) eqn:Hh; [|done].
    intros [= ->]. split; [by left | by apply has_name_true].
Qed.

Lemma deciding_None k types :
  deciding k types = None ↔ ∀ t, t ∈ types → CustomParam.name t ≠ VStr k.
Proof.
  induction types as [|t0 rest IH]; simpl.
  - split; [|done]. intros _ t Hin. by apply elem_of_nil in Hin.
  - destruct (deciding k rest) as [t'|] eqn:Hd.
    + split; [done|]. intros Hall.
      apply deciding_Some in Hd as [Hin Hn].
      exfalso. apply (Hall t'); [by right | done].
    + destruct (has_name k t0) eqn:Hh.
      * split; [done|]. intros Hall. exfalso.
        apply (Hall t0); [by left | by apply has_name_true].
      * split; [|done]. intros _ t Hin.
        apply elem_of_cons in Hin as [->|Hin].
        -- intros Hn. apply has_name_true in Hn. congruence.
        -- by apply IH.
Qed.

(** The last descriptor named [k], found by position. *)
Lemma deciding_last k types i t :
  types !! i = Some t →
  CustomParam.name t = VStr k →
  (∀ j t', (i < j)%nat → types !! j = Some t' → CustomParam.name t' ≠ VStr k) →
  deciding k types = Some t.
Proof.
  revert i. induction types as [|t0 rest IH]; intros i Hi Hn Hlater; [done|].
  simpl. destruct i as [|i]; simpl in Hi.
  - inversion Hi; subst t0.
    assert (deciding k rest = None) as ->.
    { apply deciding_None. intros t' Hin.
      apply list_elem_of_lookup in Hin as [j Hj].
      apply (Hlater (S j)); [lia | done]. }
    apply has_name_true in Hn. by rewrite Hn.
  - erewrite IH; [done | exact Hi | done |].
    intros j t' Hlt Hj. apply (Hlater (S j)); [lia | done].
Qed.
End Coercion.

(** C1. For every parameter mapping and every schema (descriptors named by
    strings), [_coerce] returns a mapping whose keys are exactly the names of
    the schema's descriptors.  Each key holds the stored value when the key is
    present in the prior mapping with a value of the very type of the
    descriptor's default, and the descriptor's default otherwise; the
    descriptor meant is the one named by the key (the last one, should the
    name occur more than once).  A key of the prior mapping that no descriptor
    names is not in the result. *)
Theorem coerce_keys_and_values (params : gmap string pyval)
    (types : list CustomParam.t) :
  Forall (λ t, ∃ k, CustomParam.name t = VStr k) types →
  ∃ out : gmap string pyval,
    _coerce params types = Some out ∧
    (∀ k, is_Some (out !! k) ↔ ∃ t, t ∈ types ∧ CustomParam.name t = VStr k) ∧
    (∀ k, is_Some (out !! k) →
       ∃ t, t ∈ types ∧ CustomParam.name t = VStr k ∧
            out !! k = Some (kept_or_default params k (CustomParam.default t))) ∧
    (∀ i t k,
       types !! i = Some t →
       CustomParam.name t = VStr k →
       (∀ j t', (i < j)%nat → types !! j = Some t' →
                CustomParam.name t' ≠ VStr k) →
       out !! k = Some (kept_or_default params k (CustomParam.default t))) ∧
    (∀ k, is_Some (params !! k) →
          (∀ t, t ∈ types → CustomParam.name t ≠ VStr k) →
          out !! k = None).
Proof.
  intros Hstr.
  destruct (coerce_into_total params ∅ types Hstr) as [out Hout].
  exists out. split; [exact Hout|].
  assert (Hlook : ∀ k, out !! k =
            match deciding k types with
            | Some t => Some (kept_or_default params k (CustomParam.default t))
            | None => None
            end).
  { intros k. rewrite (coerce_into_lookup _ _ _ _ k Hout).
    destruct (deciding k types); [by rewrite use_kept_or_default|].
    apply lookup_empty. }
  repeat split.
  - rewrite Hlook. destruct (deciding k types) as [t|] eqn:Hd.
    + intros _. exists t. by apply deciding_Some.
    + intros [? ?]; discriminate.
  - intros (t & Hin & Hn). rewrite Hlook.
    destruct (deciding k types) as [t'|] eqn:Hd; [by eexists|].
    exfalso. eapply deciding_None; eauto.
  - intros k. rewrite Hlook. destruct (deciding k types) as [t|] eqn:Hd.
    + intros _. exists t. apply deciding_Some in Hd as [? ?]. done.
    + intros [? ?]; discriminate.
  - intros i t k Hi Hn Hlater. rewrite Hlook.
    by rewrite (deciding_last k types i t Hi Hn Hlater).
  - intros k _ Hnone. rewrite Hlook.
    apply deciding_None in Hnone. by rewrite Hnone.
Qed.

Lemma coerce_keys_and_values_witness :
  Forall (λ t, ∃ k, CustomParam.name t = VStr k) sample_schema ∧
  ∃ out : gmap string pyval,
    _coerce sample_params sample_schema = Some out ∧
    (∀ k, is_Some (out !! k) ↔
          ∃ t, t ∈ sample_schema ∧ CustomParam.name t = VStr k) ∧
    (∀ k, is_Some (out !! k) →
       ∃ t, t ∈ sample_schema ∧ CustomParam.name t = VStr k ∧
            out !! k =
              Some (kept_or_default sample_params k (CustomParam.default t))) ∧
    (∀ i t k,
       sample_schema !! i = Some t →
       CustomParam.name t = VStr k →
       (∀ j t', (i < j)%nat → sample_schema !! j = Some t' →
                CustomParam.name t' ≠ VStr k) →
       out !! k =
         Some (kept_or_default sample_params k (CustomParam.default t))) ∧
    (∀ k, is_Some (sample_params !! k) →
          (∀ t, t ∈ sample_schema → CustomParam.name t ≠ VStr k) →
          out !! k = None).
Proof.
  split.
  - repeat constructor. by exists "Steps".
  - apply (coerce_keys_and_values sample_params sample_schema).
    repeat constructor. by exists "Steps".
Defined.

(** The two coercion examples of the spec, run on the code. *)
Example coerce_keeps_matching_drops_extra :
  _coerce sample_params sample_schema = Some {[ "Steps" := VInt 5 ]}.
Proof. reflexivity. Qed.

Example coerce_mismatch_falls_back :
  _coerce {[ "Steps" := VStr "five" ]} sample_schema
  = Some {[ "Steps" := VInt 20 ]}.
Proof. reflexivity. Qed.

(** ** Layer parameters under coercion *)

Lemma use_absent_default (v : pyval) : use v VNone = VNone.
Proof. by destruct v. Qed.

Lemma deciding_position (k : string) (types : list CustomParam.t)
    (t : CustomParam.t) :
  deciding k types = Some t →
  ∃ j, types !! j = Some t ∧
       ∀ j' t', (j < j')%nat → types !! j' = Some t' →
                CustomParam.name t' ≠ VStr k.
Proof.
  induction types as [|t0 rest IH]; simpl; [done|].
  destruct (deciding k rest) as [t1|] eqn:Hd.
  - intros [= ->]. destruct IH as (j & Hj & Hlater); [done|].
    exists (S j). split; [done|].
    intros [|j'] t' Hlt Hj'; [lia|]. apply (Hlater j'); [lia | done].
  - destruct (has_name k t0); [|done]. intros [= ->].
    exists 0%nat. split; [done|].
    intros [|j'] t' Hlt Hj'; [lia|]. simpl in Hj'.
    eapply deciding_None; [exact Hd|]. apply list_elem_of_lookup. eauto.
Qed.

(** What [_gather_params] yields for a layer node carries no default. *)
Lemma gather_layer_default (w : ComfyWorkflow) (t : CustomParam.t) :
  t ∈ _gather_params w →
  CustomParam.kind t ≠ number_int →
  CustomParam.default t = VNone.
Proof.
  induction w as [|node rest IH]; simpl; [by intros ?%elem_of_nil|].
  intros Hin Hkind. apply elem_of_app in Hin as [Hin|Hin]; [|by apply IH].
  unfold gather_node in Hin.
  repeat match type of Hin with
         | _ ∈ (if ?b then _ else _) => destruct b
         end;
    try (apply list_elem_of_singleton in Hin; subst t; simpl in *; congruence).
  by apply elem_of_nil in Hin.
Qed.

(** C9, as written, fails: with an image layer and an integer parameter both
    named ["x"], the stored integer survives under the layer's name. *)
Lemma layer_names_map_to_None_counterexample :
  ¬ layer_names_map_to_None clash_params (_gather_params clash_graph).
Proof.
  intros Hclaim.
  destruct (Hclaim (CustomParam.make2 image_layer (VStr "x")) "x")
    as (out & Hout & Hx).
  - vm_compute. by left.
  - done.
  - done.
  - assert (_coerce clash_params (_gather_params clash_graph)
            = Some {[ "x" := VInt 5 ]}) as Hrun by reflexivity.
    rewrite Hrun in Hout. inversion Hout; subst out.
    rewrite lookup_singleton_eq in Hx. discriminate.
Qed.

(** C9, amended.  In a schema whose layer descriptors carry no default (as
    every extracted schema does), the name of an image or mask layer
    descriptor is mapped to [None], whatever was stored, provided no later
    descriptor with the same name is an integer parameter. *)
Theorem layer_entry_absent (params : gmap string pyval)
    (types : list CustomParam.t) (i : nat) (t : CustomParam.t) (k : string) :
  Forall (λ t', ∃ k', CustomParam.name t' = VStr k') types →
  (∀ t', t' ∈ types → CustomParam.kind t' ≠ number_int →
         CustomParam.default t' = VNone) →
  types !! i = Some t →
  CustomParam.kind t ≠ number_int →
  CustomParam.name t = VStr k →
  (∀ j t', (i < j)%nat → types !! j = Some t' →
           CustomParam.name t' = VStr k → CustomParam.kind t' ≠ number_int) →
  ∃ out : gmap string pyval,
    _coerce params types = Some out ∧ out !! k = Some VNone.
Proof.
  intros Hstr Hlayers Hi Hkind Hname Hlater.
  destruct (coerce_into_total params ∅ types Hstr) as [out Hout].
  exists out. split; [exact Hout|].
  rewrite (coerce_into_lookup _ _ _ _ k Hout).
  destruct (deciding k types) as [t'|] eqn:Hd.
  - destruct (deciding_position _ _ _ Hd) as (j & Hj & Hlast).
    pose proof (deciding_Some _ _ _ Hd) as [Hin' Hname'].
    assert (CustomParam.kind t' ≠ number_int) as Hkind'.
    { destruct (Nat.lt_trichotomy i j) as [Hlt|[->|Hgt]].
      - by apply (Hlater j).
      - rewrite Hi in Hj. by inversion Hj; subst.
      - exfalso. by apply (Hlast i t Hgt Hi). }
    rewrite (Hlayers t' Hin' Hkind'). by rewrite use_absent_default.
  - exfalso. eapply deciding_None; [exact Hd| |exact Hname].
    apply list_elem_of_lookup. eauto.
Qed.

Lemma layer_entry_absent_witness :
  ∃ out : gmap string pyval,
    _coerce layers_params (_gather_params layers_graph) = Some out ∧
    out !! "x" = Some VNone.
Proof.
  apply (layer_entry_absent layers_params (_gather_params layers_graph)
           0%nat (CustomParam.make2 image_layer (VStr "x")) "x").
  - repeat constructor; eexists; reflexivity.
  - apply gather_layer_default.
  - reflexivity.
  - discriminate.
  - reflexivity.
  - intros [|[|j]] t'; simpl.
    + lia.
    + intros _ [= <-]. discriminate.
    + intros _ Hnone. discriminate.
Defined.

(** ** Parameter extraction *)

Lemma gather_node_descriptor (node : ComfyNode.t) :
  gather_node node = option_list (descriptor_of node).
Proof.
  unfold gather_node, descriptor_of.
  destruct (String.eqb_spec (ComfyNode.type node) "ETN_KritaImageLayer") as [->|H1].
  { done. }
  rewrite decide_False by done.
  destruct (String.eqb_spec (ComfyNode.type node) "ETN_KritaMaskLayer") as [->|H2].
  { done. }
  rewrite decide_False by done.
  destruct (String.eqb_spec (ComfyNode.type node) "ETN_IntParameter") as [->|H3].
  { done. }
  by rewrite decide_False by done.
Qed.

(** C7. For every graph, [_gather_params] goes through the nodes in their
    iteration order and yields, in that order, exactly one descriptor for each
    node of one of the three recognized types and nothing for any other
    node: an image-layer descriptor named by the ["name"] input or ["Image"],
    a mask-layer descriptor named by the ["name"] input or ["Mask"], an
    integer descriptor named by the ["name"] input or ["Parameter"] with
    default, min and max from the inputs of those names or [0], [-2^31] and
    [2^31]. *)
Theorem gather_params_descriptors (w : ComfyWorkflow) :
  _gather_params w = omap descriptor_of w.
Proof.
  induction w as [|node rest IH]; simpl; [done|].
  rewrite gather_node_descriptor, IH.
  by destruct (descriptor_of node).
Qed.

(** The extraction example of the spec: three recognized nodes and a fourth,
    unrecognized one. *)
Example gather_params_example :
  _gather_params
    [ComfyNode.mk "ETN_KritaImageLayer" {[ "name" := VStr "Img" ]};
     ComfyNode.mk "ETN_IntParameter"
       (<["name" := VStr "Steps"]> (<["default" := VInt 20]>
          (<["min" := VInt 1]> {[ "max" := VInt 100 ]})));
     ComfyNode.mk "ETN_KritaMaskLayer" {[ "name" := VStr "Mask" ]};
     ComfyNode.mk "KSampler" {[ "steps" := VInt 20 ]}]
  = [CustomParam.make2 image_layer (VStr "Img");
     CustomParam.mk number_int (VStr "Steps") (VInt 20) (VInt 1) (VInt 100);
     CustomParam.make2 mask_layer (VStr "Mask")].
Proof. reflexivity. Qed.

(** ** The collection: identity and positions *)

Section Collection.
Import WorkflowCollection.
Implicit Types (c : WorkflowCollection.t) (w wf : CustomWorkflow.t).
Implicit Types (l : list CustomWorkflow.t).

Lemma py_index_row {A : Type} (l : list A) (k : nat) :
  (k < length l)%nat → py_index l (Z.of_nat k) = Some k.
Proof.
  intros Hk. unfold py_index.
  replace (0 <=? Z.of_nat k) with true by (symmetry; apply Z.leb_le; lia).
  replace (Z.of_nat k <? Z.of_nat (length l)) with true
    by (symmetry; apply Z.ltb_lt; lia).
  simpl. by rewrite Nat2Z.id.
Qed.

Lemma py_index_invalid {A : Type} (l : list A) :
  py_index l (-1) = match l with [] => None | _ => Some (length l - 1)%nat end.
Proof.
  unfold py_index. destruct l as [|x l]; [done|].
  cbn [length]. simpl (0 <=? -1).
  replace (- Z.of_nat (S (length l)) <=? -1) with true
    by (symmetry; apply Z.leb_le; lia).
  cbn [andb]. simpl (-1 <? 0). f_equal. lia.
Qed.

(** [find_index] finds the first row holding the id, or no row at all. *)
Lemma find_index_from_spec i l id :
  match find_index_from i l id with
  | RowIndex r =>
      ∃ k wf, r = (i + k)%nat ∧ l !! k = Some wf ∧ CustomWorkflow.id wf = id ∧
              ∀ j wf', (j < k)%nat → l !! j = Some wf' →
                       CustomWorkflow.id wf' ≠ id
  | InvalidIndex => id ∉ CustomWorkflow.id <$> l
  end.
Proof.
  revert i. induction l as [|w l IH]; intros i; simpl.
  - apply not_elem_of_nil.
  - destruct (String.eqb_spec (CustomWorkflow.id w) id) as [Heq|Hne].
    + exists 0%nat, w. repeat split; [lia | done | lia].
    + specialize (IH (S i)).
      destruct (find_index_from (S i) l id) as [|r].
      * rewrite elem_of_cons. intros [?|?]; [congruence | done].
      * destruct IH as (k & wf & -> & Hk & Hid & Hfirst).
        exists (S k), wf. repeat split; [lia | done | done |].
        intros [|j] wf' Hlt Hj; simpl in Hj; [congruence|].
        apply (Hfirst j); [lia | done].
Qed.

(** The two outcomes of [_process]. *)
Lemma process_cases w c :
  (∃ r wf,
      _workflows c !! r = Some wf ∧
      CustomWorkflow.id wf = CustomWorkflow.id w ∧
      (∀ j wf', (j < r)%nat → _workflows c !! j = Some wf' →
                CustomWorkflow.id wf' ≠ CustomWorkflow.id w) ∧
      _process w c =
        Ok (mk (alter (CustomWorkflow.with_graph (CustomWorkflow.graph w))
                  r (_workflows c)),
            [dataChanged (RowIndex r) (RowIndex r)]))
  ∨ ((CustomWorkflow.id w ∉ ids c) ∧
     _process w c =
       Ok (mk (_workflows c ++ [w]),
           [rowsInserted (length (_workflows c)) (length (_workflows c))])).
Proof.
  unfold _process, find_index.
  pose proof (find_index_from_spec 0 (_workflows c) (CustomWorkflow.id w)) as H.
  destruct (find_index_from 0 (_workflows c) (CustomWorkflow.id w)) as [|r].
  - right. done.
  - left. destruct H as (k & wf & -> & Hk & Hid & Hfirst). simpl in *.
    exists k, wf. repeat split; try done.
    unfold set_graph. simpl.
    rewrite py_index_row; [done|]. by eapply lookup_lt_Some.
Qed.

Lemma ids_alter_graph g r l :
  CustomWorkflow.id <$> alter (CustomWorkflow.with_graph g) r l
  = CustomWorkflow.id <$> l.
Proof.
  rewrite (list_fmap_alter _ _ (λ x, x)).
  - by apply list_alter_id.
  - by apply Forall_forall.
Qed.

(** [_process] never fails; it leaves the ids as they are or appends the
    arriving id, which was new. *)
Lemma process_ids w c :
  ∃ c' sigs, _process w c = Ok (c', sigs) ∧
    ((CustomWorkflow.id w ∈ ids c ∧ ids c' = ids c)
     ∨ ((CustomWorkflow.id w ∉ ids c) ∧
        ids c' = (ids c ++ [CustomWorkflow.id w])%list)).
Proof.
  destruct (process_cases w c) as [(r & wf & Hr & Hid & _ & ->)|[Hnew ->]].
  - eexists _, _. split; [done|]. left. split.
    + unfold ids. rewrite <- Hid. apply list_elem_of_fmap.
      exists wf. split; [done|]. apply list_elem_of_lookup. eauto.
    + unfold ids. simpl. apply ids_alter_graph.
  - eexists _, _. split; [done|]. right. split; [done|].
    unfold ids. simpl. by rewrite fmap_app.
Qed.
End Collection.

(** ** A workflow arrives under an id the collection already holds *)

(** C3. When a workflow arrives whose id the collection already holds,
    [_process] replaces the graph of that entry and nothing else: the entry
    keeps its id, origin and path and stays at its row, every other row is
    untouched, and the one notification emitted is [dataChanged] for the row
    of that entry. *)
Theorem process_existing_replaces_graph_only (c : WorkflowCollection.t)
    (w : CustomWorkflow.t) :
  CustomWorkflow.id w ∈ ids c →
  ∃ r wf c',
    WorkflowCollection._workflows c !! r = Some wf ∧
    CustomWorkflow.id wf = CustomWorkflow.id w ∧
    (∀ j wf', (j < r)%nat → WorkflowCollection._workflows c !! j = Some wf' →
              CustomWorkflow.id wf' ≠ CustomWorkflow.id w) ∧
    WorkflowCollection._process w c
      = Ok (c', [dataChanged (RowIndex r) (RowIndex r)]) ∧
    WorkflowCollection._workflows c' !! r
      = Some (CustomWorkflow.mk (CustomWorkflow.id wf) (CustomWorkflow.source wf)
                (CustomWorkflow.graph w) (CustomWorkflow.path wf)) ∧
    length (WorkflowCollection._workflows c')
      = length (WorkflowCollection._workflows c) ∧
    ∀ j, j ≠ r →
         WorkflowCollection._workflows c' !! j
         = WorkflowCollection._workflows c !! j.
Proof.
  intros Hin.
  destruct (process_cases w c) as [(r & wf & Hr & Hid & Hfirst & Hrun)|[Hnew _]];
    [|done].
  exists r, wf. eexists. split_and!; [done | done | done | exact Hrun | | |].
  - simpl. by rewrite list_lookup_alter_eq, Hr.
  - simpl. apply length_alter.
  - intros j Hj. simpl. by apply list_lookup_alter_ne.
Qed.

Lemma process_existing_replaces_graph_only_witness :
  ∃ r wf c',
    WorkflowCollection._workflows one_local !! r = Some wf ∧
    CustomWorkflow.id wf = CustomWorkflow.id same_id_remote ∧
    (∀ j wf', (j < r)%nat →
              WorkflowCollection._workflows one_local !! j = Some wf' →
              CustomWorkflow.id wf' ≠ CustomWorkflow.id same_id_remote) ∧
    WorkflowCollection._process same_id_remote one_local
      = Ok (c', [dataChanged (RowIndex r) (RowIndex r)]) ∧
    WorkflowCollection._workflows c' !! r
      = Some (CustomWorkflow.mk (CustomWorkflow.id wf) (CustomWorkflow.source wf)
                (CustomWorkflow.graph same_id_remote) (CustomWorkflow.path wf)) ∧
    length (WorkflowCollection._workflows c')
      = length (WorkflowCollection._workflows one_local) ∧
    ∀ j, j ≠ r →
         WorkflowCollection._workflows c' !! j
         = WorkflowCollection._workflows one_local !! j.
Proof.
  apply (process_existing_replaces_graph_only one_local same_id_remote).
  vm_compute. by left.
Defined.

(** C4, as written, fails: a remote workflow arriving under the id of a
    local one leaves the entry local. *)
Lemma arrival_overwrites_origin_counterexample :
  ¬ arrival_overwrites_origin one_local same_id_remote.
Proof.
  intros Hclaim.
  destruct (Hclaim 0%nat (CustomWorkflow.make3 "a" local (VInt 1)))
    as (c' & sigs & wf' & Hrun & Hrow & _ & Hsource); [done | done |].
  vm_compute in Hrun. inversion Hrun; subst c' sigs.
  simpl in Hrow. inversion Hrow; subst wf'.
  discriminate.
Qed.

(** C4, amended.  When a workflow arrives whose id the collection already
    holds, the graph of the existing entry is overwritten in place with the
    arriving graph; the origin of the entry stays the one it was registered
    with, and its row does not change. *)
Theorem arrival_overwrites_graph_keeps_origin (c : WorkflowCollection.t)
    (w : CustomWorkflow.t) :
  CustomWorkflow.id w ∈ ids c →
  ∃ r wf c' sigs wf',
    WorkflowCollection._workflows c !! r = Some wf ∧
    CustomWorkflow.id wf = CustomWorkflow.id w ∧
    WorkflowCollection._process w c = Ok (c', sigs) ∧
    WorkflowCollection._workflows c' !! r = Some wf' ∧
    CustomWorkflow.id wf' = CustomWorkflow.id w ∧
    CustomWorkflow.graph wf' = CustomWorkflow.graph w ∧
    CustomWorkflow.source wf' = CustomWorkflow.source wf ∧
    ids c' = ids c.
Proof.
  intros Hin.
  destruct (process_cases w c) as [(r & wf & Hr & Hid & Hfirst & Hrun)|[Hnew _]];
    [|done].
  exists r, wf. eexists _, _, _.
  split_and!; [done | done | exact Hrun | | | | |].
  - simpl. by rewrite list_lookup_alter_eq, Hr.
  - done.
  - done.
  - done.
  - unfold ids. simpl. apply ids_alter_graph.
Qed.

Lemma arrival_overwrites_graph_keeps_origin_witness :
  ∃ r wf c' sigs wf',
    WorkflowCollection._workflows one_local !! r = Some wf ∧
    CustomWorkflow.id wf = CustomWorkflow.id same_id_remote ∧
    WorkflowCollection._process same_id_remote one_local = Ok (c', sigs) ∧
    WorkflowCollection._workflows c' !! r = Some wf' ∧
    CustomWorkflow.id wf' = CustomWorkflow.id same_id_remote ∧
    CustomWorkflow.graph wf' = CustomWorkflow.graph same_id_remote ∧
    CustomWorkflow.source wf' = CustomWorkflow.source wf ∧
    ids c' = ids one_local.
Proof.
  apply (arrival_overwrites_graph_keeps_origin one_local same_id_remote).
  vm_compute. by left.
Defined.

(** ** Ingestion through the entry points *)

Section Ingestion.
Import WorkflowCollection.
Implicit Types (c : WorkflowCollection.t) (a : Arrival).

Lemma find_cases c id :
  (id ∈ ids c ∧ ∃ wf, find c id = Ok (Some wf))
  ∨ ((id ∉ ids c) ∧ find c id = Ok None).
Proof.
  unfold find, find_index.
  pose proof (find_index_from_spec 0 (_workflows c) id) as H.
  destruct (find_index_from 0 (_workflows c) id) as [|r]; simpl.
  - by right.
  - left. destruct H as (k & wf & -> & Hk & Hid & _). simpl. split.
    + unfold ids. rewrite <- Hid. apply list_elem_of_fmap.
      exists wf. split; [done|]. apply list_elem_of_lookup. eauto.
    + exists wf. unfold py_getitem.
      rewrite py_index_row by (by eapply lookup_lt_Some). by rewrite Hk.
Qed.

Lemma row_id_known c r wf :
  _workflows c !! r = Some wf → CustomWorkflow.id wf ∈ ids c.
Proof.
  intros Hr. apply list_elem_of_fmap. exists wf. split; [done|].
  apply list_elem_of_lookup. eauto.
Qed.

(** One arrival: under a known id the ids stay as they are; under a new id
    the arriving workflow goes to the end; when nothing arrives (the file
    failed to load, the backend does not hold the id) nothing changes. *)
Lemma ingest_ids a c :
  (ids (ingest a c) = ids c ∧
   ∀ w, arriving a = Some w → CustomWorkflow.id w ∈ ids c)
  ∨ ∃ w, arriving a = Some w ∧ (CustomWorkflow.id w ∉ ids c) ∧
         _workflows (ingest a c) = (_workflows c ++ [w])%list.
Proof.
  destruct a as [file|connection id|id graph]; simpl.
  - unfold _process_file. destruct (LocalFile.content file) as [data|e]; [|by left].
    destruct (process_cases (CustomWorkflow.make3 (LocalFile.stem file) local data) c)
      as [(r & wf & Hr & Hid & _ & ->)|[Hnew ->]].
    + left. split; [apply ids_alter_graph|].
      intros w [= <-]. rewrite <- Hid. by eapply row_id_known.
    + right. eexists. by split_and!.
  - unfold _process_remote_workflow.
    destruct (Connection.getitem connection id) as [graph|e]; [|by left].
    destruct (process_cases (CustomWorkflow.make3 id remote graph) c)
      as [(r & wf & Hr & Hid & _ & ->)|[Hnew ->]].
    + left. split; [apply ids_alter_graph|].
      intros w [= <-]. rewrite <- Hid. by eapply row_id_known.
    + right. eexists. by split_and!.
  - destruct (find_cases c id) as [[Hin [wf ->]]|[Hnew ->]].
    + left. split; [done|]. by intros w [= <-].
    + right. eexists. by split_and!.
Qed.

(** Rows that exist keep their id, origin and path. *)
Lemma ingest_keeps_rows a c r wf :
  _workflows c !! r = Some wf →
  ∃ wf', _workflows (ingest a c) !! r = Some wf' ∧
         CustomWorkflow.id wf' = CustomWorkflow.id wf ∧
         CustomWorkflow.source wf' = CustomWorkflow.source wf ∧
         CustomWorkflow.path wf' = CustomWorkflow.path wf.
Proof.
  intros Hr.
  assert (Halter : ∀ g k, ∃ wf',
            alter (CustomWorkflow.with_graph g) k (_workflows c) !! r = Some wf' ∧
            CustomWorkflow.id wf' = CustomWorkflow.id wf ∧
            CustomWorkflow.source wf' = CustomWorkflow.source wf ∧
            CustomWorkflow.path wf' = CustomWorkflow.path wf).
  { intros g k. rewrite list_lookup_alter. case_decide; subst.
    - rewrite Hr. by eexists.
    - by exists wf. }
  assert (Happ : ∀ w, ∃ wf',
            (_workflows c ++ [w])%list !! r = Some wf' ∧
            CustomWorkflow.id wf' = CustomWorkflow.id wf ∧
            CustomWorkflow.source wf' = CustomWorkflow.source wf ∧
            CustomWorkflow.path wf' = CustomWorkflow.path wf).
  { intros w. exists wf. split; [|done].
    apply lookup_app_l_Some, Hr. }
  destruct a as [file|connection id|id graph]; simpl.
  - unfold _process_file. destruct (LocalFile.content file) as [data|e]; [|by exists wf].
    destruct (process_cases (CustomWorkflow.make3 (LocalFile.stem file) local data) c)
      as [(k & wf0 & _ & _ & _ & ->)|[Hnew ->]]; simpl; [apply Halter | apply Happ].
  - unfold _process_remote_workflow.
    destruct (Connection.getitem connection id) as [graph|e]; [|by exists wf].
    destruct (process_cases (CustomWorkflow.make3 id remote graph) c)
      as [(k & wf0 & _ & _ & _ & ->)|[Hnew ->]]; simpl; [apply Halter | apply Happ].
  - destruct (find_cases c id) as [[_ [wf0 ->]]|[Hnew ->]]; [by exists wf|].
    apply Happ.
Qed.

Lemma ingest_NoDup a c : NoDup (ids c) → NoDup (ids (ingest a c)).
Proof.
  intros Hnd. destruct (ingest_ids a c) as [[-> _]|(w & _ & Hnew & Hrows)]; [done|].
  unfold ids in *. rewrite Hrows, fmap_app. simpl.
  apply NoDup_app. split_and!; [done | | apply NoDup_singleton].
  intros x Hx Hx'. apply list_elem_of_singleton in Hx'. by subst.
Qed.

Lemma ingest_prefix a c : ids c `prefix_of` ids (ingest a c).
Proof.
  destruct (ingest_ids a c) as [[-> _]|(w & _ & _ & Hrows)]; [done|].
  unfold ids. rewrite Hrows, fmap_app. by apply prefix_app_r.
Qed.

Lemma ingest_all_NoDup arrivals c :
  NoDup (ids c) → NoDup (ids (ingest_all arrivals c)).
Proof.
  revert c. induction arrivals as [|a rest IH]; intros c Hnd; [done|].
  simpl. apply IH. by apply ingest_NoDup.
Qed.

Lemma ingest_all_prefix arrivals c :
  ids c `prefix_of` ids (ingest_all arrivals c).
Proof.
  revert c. induction arrivals as [|a rest IH]; intros c; [done|].
  simpl. etrans; [apply ingest_prefix | apply IH].
Qed.

Lemma ingest_all_app arrivals more c :
  ingest_all (arrivals ++ more) c = ingest_all more (ingest_all arrivals c).
Proof. unfold ingest_all. apply foldl_app. Qed.

(** Where a row of the collection comes from after one arrival: it was
    there, with the same id, origin and path, or it is the workflow that
    just arrived under a new id. *)
Lemma ingest_row_origin a c r wf' :
  _workflows (ingest a c) !! r = Some wf' →
  (∃ wf, _workflows c !! r = Some wf ∧
         CustomWorkflow.id wf' = CustomWorkflow.id wf ∧
         CustomWorkflow.source wf' = CustomWorkflow.source wf ∧
         CustomWorkflow.path wf' = CustomWorkflow.path wf)
  ∨ (arriving a = Some wf' ∧ CustomWorkflow.id wf' ∉ ids c).
Proof.
  intros Hr.
  destruct (decide (r < length (_workflows c))%nat) as [Hlt|Hge].
  - left. destruct (lookup_lt_is_Some_2 _ _ Hlt) as [wf Hwf].
    destruct (ingest_keeps_rows a c r wf Hwf) as (wf'' & Hr' & Hkeep).
    rewrite Hr in Hr'. inversion Hr'; subst wf''. by exists wf.
  - right. destruct (ingest_ids a c) as [[Hsame _]|(w & Hw & Hnew & Hrows)].
    + exfalso. apply lookup_lt_Some in Hr.
      apply (f_equal length) in Hsame. unfold ids in Hsame.
      rewrite !length_fmap in Hsame. lia.
    + rewrite Hrows in Hr. apply lookup_app_Some in Hr as [Hr|[_ Hr]].
      * apply lookup_lt_Some in Hr. lia.
      * by apply list_lookup_singleton_Some in Hr as [_ <-].
Qed.

Lemma ingest_all_keeps_rows arrivals c r wf :
  _workflows c !! r = Some wf →
  ∃ wf', _workflows (ingest_all arrivals c) !! r = Some wf' ∧
         CustomWorkflow.id wf' = CustomWorkflow.id wf ∧
         CustomWorkflow.source wf' = CustomWorkflow.source wf ∧
         CustomWorkflow.path wf' = CustomWorkflow.path wf.
Proof.
  revert c wf. induction arrivals as [|a rest IH]; intros c wf Hr; simpl.
  - by exists wf.
  - destruct (ingest_keeps_rows a c r wf Hr) as (wf1 & Hr1 & Hid & Hsrc & Hpath).
    destruct (IH _ _ Hr1) as (wf' & Hr' & Hid' & Hsrc' & Hpath').
    exists wf'. split_and!; [done | congruence | congruence | congruence].
Qed.

(** Every row after a run of arrivals was there before or arrived. *)
Lemma ingest_all_row_origin arrivals c r wf' :
  _workflows (ingest_all arrivals c) !! r = Some wf' →
  (∃ wf, _workflows c !! r = Some wf ∧
         CustomWorkflow.id wf' = CustomWorkflow.id wf ∧
         CustomWorkflow.source wf' = CustomWorkflow.source wf ∧
         CustomWorkflow.path wf' = CustomWorkflow.path wf)
  ∨ (∃ a w, a ∈ arrivals ∧ arriving a = Some w ∧
            CustomWorkflow.id wf' = CustomWorkflow.id w ∧
            CustomWorkflow.source wf' = CustomWorkflow.source w ∧
            CustomWorkflow.path wf' = CustomWorkflow.path w).
Proof.
  revert c. induction arrivals as [|a rest IH]; intros c Hr; simpl in Hr.
  - left. by exists wf'.
  - destruct (IH _ Hr) as [(wf1 & Hr1 & Hid & Hsrc & Hpath)|(a' & w & Hin & Hw & Hkeep)].
    + destruct (ingest_row_origin a c r wf1 Hr1)
        as [(wf & Hwf & Hid0 & Hsrc0 & Hpath0)|[Hw _]].
      * left. exists wf. split_and!; [done | congruence | congruence | congruence].
      * right. exists a, wf1. split_and!; [by left | done | done | done | done].
    + right. exists a', w. split; [by right | done].
Qed.

(** A workflow that arrives is in the collection afterwards, under its id. *)
Lemma ingest_arrived a c w :
  arriving a = Some w → CustomWorkflow.id w ∈ ids (ingest a c).
Proof.
  intros Hw. destruct (ingest_ids a c) as [[-> Hknown]|(w' & Hw' & _ & Hrows)].
  - by apply Hknown.
  - rewrite Hw in Hw'. inversion Hw'; subst w'.
    unfold ids. rewrite Hrows, fmap_app. apply elem_of_app. right. by left.
Qed.

Lemma ingest_all_arrived arrivals c a w :
  a ∈ arrivals → arriving a = Some w →
  CustomWorkflow.id w ∈ ids (ingest_all arrivals c).
Proof.
  intros Hin Hw. apply list_elem_of_split in Hin as (before & after & ->).
  rewrite ingest_all_app. simpl.
  eapply elem_of_prefix; [|apply ingest_all_prefix].
  by apply ingest_arrived.
Qed.
End Ingestion.

(** ** The entry points are ingestions *)

Section InitialLoad.
Import WorkflowCollection.

Lemma process_file_ingest file c :
  match LocalFile.content file with
  | Ok _ => ∃ sigs, _process_file file c = Ok (ingest (FromFile file) c, sigs)
  | Raise e => _process_file file c = Raise e ∧ ingest (FromFile file) c = c
  end.
Proof.
  unfold ingest, _process_file.
  destruct (LocalFile.content file) as [data|e]; [|done].
  destruct (process_ids (CustomWorkflow.make3 (LocalFile.stem file) local data) c)
    as (c' & sigs & -> & _).
  by exists sigs.
Qed.

Lemma load_files_ingest files c log :
  load_files files c log
  = (ingest_all (FromFile <$> files) c, (log ++ failures files)%list).
Proof.
  revert c log. induction files as [|file rest IH]; intros c log.
  - simpl. by rewrite app_nil_r.
  - pose proof (process_file_ingest file c) as H.
    unfold failures. cbn -[ingest].
    destruct (LocalFile.content file) as [data|e].
    + destruct H as [sigs ->]. apply IH.
    + destruct H as [-> ->]. rewrite IH. by rewrite <- app_assoc.
Qed.

Lemma lookup_in_key (l : list (string * pyval)) (id : string) :
  id ∈ l.*1 → ∃ graph, Connection.lookup_in l id = Ok graph.
Proof.
  induction l as [|[k g] l IH]; simpl; [by intros ?%elem_of_nil|].
  intros Hin. destruct (String.eqb_spec k id) as [->|Hne]; [by eexists|].
  apply IH. apply elem_of_cons in Hin as [?|?]; [congruence | done].
Qed.

Lemma load_remote_ingest connection ids c :
  ids ⊆ Connection.keys connection →
  load_remote connection ids c
  = Ok (ingest_all (FromRemote connection <$> ids) c).
Proof.
  revert c. induction ids as [|id rest IH]; intros c Hsub; simpl; [done|].
  unfold _process_remote_workflow at 1 2.
  destruct (lookup_in_key (Connection.workflows connection) id) as [graph Hg].
  { apply Hsub. by left. }
  unfold Connection.getitem. rewrite Hg.
  destruct (process_ids (CustomWorkflow.make3 id remote graph) c)
    as (c' & sigs & -> & _).
  apply IH. intros x Hx. apply Hsub. by right.
Qed.

(** [__init__] is the ingestion of the scanned files, in listing order,
    followed by the backend's published workflows; it returns normally and
    has logged the failures of the scan. *)
Lemma init_ingest connection files :
  __init__ connection files
  = (Ok (ingest_all
           ((FromFile <$> files)
            ++ (FromRemote connection <$> Connection.keys connection))
           (mk [])),
     failures files).
Proof.
  unfold __init__. rewrite load_files_ingest. simpl.
  rewrite load_remote_ingest by done.
  by rewrite ingest_all_app.
Qed.
End InitialLoad.

Section WorkspaceEntryPoints.
Import CustomWorkspace.
Variable import_graph : pyval -> result ComfyWorkflow.

Lemma keeps_ret {A : Type} (a : A) : keeps_workflows (ret a).
Proof. done. Qed.

Lemma keeps_raise {A : Type} (e : exn) : keeps_workflows (@raise A e).
Proof. done. Qed.

Lemma keeps_lift {A : Type} (r : result A) : keeps_workflows (lift r).
Proof. done. Qed.

Lemma keeps_gets {A : Type} (f : System → A) : keeps_workflows (gets f).
Proof. done. Qed.

Lemma keeps_reads {A : Type} (f : System → result A) :
  keeps_workflows (reads f).
Proof. done. Qed.

Lemma keeps_modify_workspace f : keeps_workflows (modify_workspace f).
Proof. done. Qed.

Lemma keeps_bind {A B : Type} (m : M A) (k : A → M B) :
  keeps_workflows m → (∀ a, keeps_workflows (k a)) → keeps_workflows (bind m k).
Proof.
  intros Hm Hk s. unfold bind. specialize (Hm s).
  destruct (m s) as [[a|e] s']; simpl in *; [|done].
  by rewrite Hk.
Qed.

Lemma keeps_in_slot (m : M unit) : keeps_workflows m → keeps_workflows (in_slot m).
Proof.
  intros Hm s. unfold in_slot. specialize (Hm s).
  by destruct (m s) as [[a|e] s'].
Qed.

Create HintDb keeps discriminated.
Hint Resolve keeps_ret keeps_raise keeps_lift keeps_gets keeps_reads
  keeps_modify_workspace keeps_in_slot : keeps.

Ltac keeps_step :=
  first [ apply keeps_bind; [|intros ?]
        | progress eauto with keeps
        | match goal with
          | |- keeps_workflows (if ?b then _ else _) => destruct b
          | |- keeps_workflows (match ?x with _ => _ end) => destruct x
          end ].

Lemma keeps_update_workflow idx : keeps_workflows (_update_workflow import_graph idx).
Proof. unfold _update_workflow, entry_at. repeat keeps_step. Qed.

Lemma keeps_set_workflow_id id : keeps_workflows (_set_workflow_id import_graph id).
Proof.
  unfold _set_workflow_id. repeat keeps_step.
Qed.

Lemma keeps_set_default_workflow :
  keeps_workflows (_set_default_workflow import_graph).
Proof.
  unfold _set_default_workflow. repeat keeps_step.
Qed.

Lemma keeps_deliver sigs : keeps_workflows (deliver import_graph sigs).
Proof.
  induction sigs as [|sig rest IH]; simpl; [done|].
  apply keeps_bind; [|done].
  destruct sig; simpl; apply keeps_in_slot;
    [apply keeps_set_default_workflow | apply keeps_update_workflow].
Qed.

Lemma on_collection_workflows method s :
  workflows (on_collection import_graph method s).2
  = match method (workflows s) with
    | Ok (c', _) => c'
    | Raise _ => workflows s
    end.
Proof.
  unfold on_collection, bind, gets, lift, put_workflows. simpl.
  destruct (method (workflows s)) as [[c' sigs]|e]; simpl; [|done].
  pose proof (keeps_deliver sigs
                (mkSystem c' (workspace s) (reported s))) as H.
  destruct (deliver import_graph sigs _) as [[[]|e] s']; simpl in *; done.
Qed.

(** The backend publishes: the collection ingests the remote workflow. *)
Lemma published_workflows connection id s :
  workflows (CustomWorkspace._process_remote_workflow import_graph connection id s).2
  = ingest (FromRemote connection id) (workflows s).
Proof.
  unfold CustomWorkspace._process_remote_workflow.
  by rewrite on_collection_workflows.
Qed.

(** The document binds a graph: the collection ingests the document's
    workflow. *)
Lemma set_graph_workflows id graph s :
  workflows (set_graph import_graph id graph s).2
  = ingest (FromDocument id graph) (workflows s).
Proof.
  unfold set_graph, bind at 1 2. simpl.
  destruct (find_cases (workflows s) id) as [[_ [wf ->]]|[Hnew ->]]; simpl.
  - apply keeps_set_workflow_id.
  - pose proof (on_collection_workflows
      (λ c, Ok (WorkflowCollection.append
                  (CustomWorkflow.make3 id document graph) c)) s) as H.
    simpl in H.
    destruct (on_collection import_graph _ s) as [[[]|e] s'] eqn:Hrun;
      simpl in *.
    + by rewrite keeps_set_workflow_id.
    + done.
Qed.

(** Selecting a workflow leaves the collection alone. *)
Lemma select_workflows id s :
  workflows (_set_workflow_id import_graph id s).2 = workflows s.
Proof. apply keeps_set_workflow_id. Qed.
End WorkspaceEntryPoints.

(** ** Identity and positions across ingestions *)

(** C2. Whatever reaches the collection through its entry points (files of
    the initial load, workflows published by the backend, workflows bound by
    the document), in whatever order, starting from the empty collection: no
    two entries ever share an id; one arrival either leaves the rows' ids as
    they are (an arrival under a known id is an update in place) or appends
    the arriving workflow, whose id was new, as the last row; and the id at a
    row stays at that row whatever arrives later. *)
Theorem collection_ids_unique_and_stable (arrivals : list Arrival) :
  let c := ingest_all arrivals (WorkflowCollection.mk []) in
  NoDup (ids c) ∧
  (∀ a,
     (ids (ingest a c) = ids c ∧
      ∀ w, arriving a = Some w → CustomWorkflow.id w ∈ ids c)
     ∨ (∃ w, arriving a = Some w ∧ (CustomWorkflow.id w ∉ ids c) ∧
             WorkflowCollection._workflows (ingest a c)
             = (WorkflowCollection._workflows c ++ [w])%list)) ∧
  (∀ more i id,
     ids c !! i = Some id → ids (ingest_all more c) !! i = Some id).
Proof.
  intros c. split_and!.
  - apply ingest_all_NoDup. apply NoDup_nil_2.
  - intros a. apply ingest_ids.
  - intros more i id Hi.
    eapply prefix_lookup_Some; [exact Hi | apply ingest_all_prefix].
Qed.

(** ** Backing files *)

(** C10. Every entry the entry points ever put into the collection has no
    path: a workflow loaded from a file records no handle to that file. *)
Theorem collection_paths_absent (arrivals : list Arrival) :
  Forall (λ wf, CustomWorkflow.path wf = None)
    (WorkflowCollection._workflows
       (ingest_all arrivals (WorkflowCollection.mk []))).
Proof.
  assert (Hstep : ∀ a c,
            Forall (λ wf, CustomWorkflow.path wf = None)
              (WorkflowCollection._workflows c) →
            Forall (λ wf, CustomWorkflow.path wf = None)
              (WorkflowCollection._workflows (ingest a c))).
  { intros a c Hc. apply Forall_lookup. intros r wf' Hr.
    destruct (ingest_row_origin a c r wf' Hr)
      as [(wf & Hwf & _ & _ & ->)|[Hw _]].
    - by eapply (Forall_lookup_1 _ _ _ _ Hc).
    - destruct a as [file|connection id|id graph]; simpl in Hw.
      + destruct (LocalFile.content file); by inversion Hw.
      + destruct (Connection.getitem connection id); by inversion Hw.
      + by inversion Hw. }
  assert (Hall : ∀ c,
            Forall (λ wf, CustomWorkflow.path wf = None)
              (WorkflowCollection._workflows c) →
            Forall (λ wf, CustomWorkflow.path wf = None)
              (WorkflowCollection._workflows (ingest_all arrivals c))).
  { induction arrivals as [|a rest IH]; intros c Hc; simpl; [done|].
    apply IH. by apply Hstep. }
  apply Hall. simpl. apply Forall_nil_2.
Qed.

(** ** The initial load *)

Lemma failures_spec (files : list LocalFile.t) (file : LocalFile.t) (e : exn) :
  mkLog file e ∈ failures files ↔ file ∈ files ∧ LocalFile.content file = Raise e.
Proof.
  unfold failures. rewrite list_elem_of_omap. split.
  - intros (f & Hin & Hf). destruct (LocalFile.content f) eqn:Hc; [done|].
    by inversion Hf; subst.
  - intros [Hin Hc]. exists file. by rewrite Hc.
Qed.

(** C8. The initial load never aborts: [__init__] returns a collection
    whatever the files hold.  A file that cannot be read or deserialized
    leaves one diagnostic in the log and is skipped, the files after it are
    still loaded; every file that loads has an entry under its stem, of local
    origin; and every entry comes from a file that loaded or from the
    backend. *)
Theorem initial_load_skips_corrupt_files (connection : Connection.t)
    (files : list LocalFile.t) :
  ∃ c log,
    WorkflowCollection.__init__ connection files = (Ok c, log) ∧
    (∀ file e, mkLog file e ∈ log ↔
               file ∈ files ∧ LocalFile.content file = Raise e) ∧
    (∀ file data,
       file ∈ files → LocalFile.content file = Ok data →
       ∃ wf, wf ∈ WorkflowCollection._workflows c ∧
             CustomWorkflow.id wf = LocalFile.stem file ∧
             CustomWorkflow.source wf = local) ∧
    (∀ wf, wf ∈ WorkflowCollection._workflows c →
       (∃ file data, file ∈ files ∧ LocalFile.content file = Ok data ∧
                     CustomWorkflow.id wf = LocalFile.stem file ∧
                     CustomWorkflow.source wf = local)
       ∨ (CustomWorkflow.id wf ∈ Connection.keys connection ∧
          CustomWorkflow.source wf = remote)).
Proof.
  eexists _, _. split; [apply init_ingest|].
  split; [apply failures_spec|].
  set (empty := WorkflowCollection.mk []).
  assert (Hfrom : ∀ arrivals r wf',
            WorkflowCollection._workflows (ingest_all arrivals empty) !! r = Some wf' →
            ∃ a w, a ∈ arrivals ∧ arriving a = Some w ∧
                   CustomWorkflow.id wf' = CustomWorkflow.id w ∧
                   CustomWorkflow.source wf' = CustomWorkflow.source w).
  { intros arrivals r wf' Hr.
    destruct (ingest_all_row_origin arrivals empty r wf' Hr)
      as [(wf & Hwf & _)|(a & w & Hin & Hw & Hid & Hsrc & _)]; [done|].
    by exists a, w. }
  split.
  - intros file data Hin Hdata. rewrite ingest_all_app.
    set (scanned := ingest_all (FromFile <$> files) empty).
    assert (LocalFile.stem file ∈ ids scanned) as Hstem.
    { apply (ingest_all_arrived _ _ (FromFile file)
               (CustomWorkflow.make3 (LocalFile.stem file) local data)).
      - apply list_elem_of_fmap. by exists file.
      - simpl. by rewrite Hdata. }
    apply list_elem_of_fmap in Hstem as (wf1 & Hid1 & Hin1).
    apply list_elem_of_lookup in Hin1 as [r Hr1].
    destruct (Hfrom _ _ _ Hr1) as (a & w & Ha & Hw & _ & Hsrc).
    apply list_elem_of_fmap in Ha as (file' & -> & _). simpl in Hw.
    destruct (LocalFile.content file') as [data'|]; [|done].
    inversion Hw; subst w. simpl in Hsrc.
    destruct (ingest_all_keeps_rows
                (FromRemote connection <$> Connection.keys connection)
                scanned r wf1 Hr1) as (wf & Hr & Hid & Hsource & _).
    exists wf. split_and!.
    + apply list_elem_of_lookup. eauto.
    + congruence.
    + congruence.
  - intros wf Hin. apply list_elem_of_lookup in Hin as [r Hr].
    destruct (Hfrom _ _ _ Hr) as (a & w & Ha & Hw & Hid & Hsrc).
    apply elem_of_app in Ha as [Ha|Ha].
    + left. apply list_elem_of_fmap in Ha as (file & -> & Hfile). simpl in Hw.
      destruct (LocalFile.content file) as [data|] eqn:Hdata; [|done].
      inversion Hw; subst w. by exists file, data.
    + right. apply list_elem_of_fmap in Ha as (id & -> & Hkey). simpl in Hw.
      destruct (Connection.getitem connection id) as [graph|]; [|done].
      inversion Hw; subst w. simpl in Hid, Hsrc.
      split; [by rewrite Hid | done].
Qed.

(** The loading example of the spec: one corrupt and one valid file give a
    collection with the valid one only, and a diagnostic for the corrupt
    one. *)
Example initial_load_example :
  WorkflowCollection.__init__ silent_backend [corrupt_file; valid_file]
  = (Ok (WorkflowCollection.mk [CustomWorkflow.make3 "portrait" local (VDict [])]),
     [mkLog corrupt_file JSONDecodeError]).
Proof. reflexivity. Qed.

(** ** The sorted view *)

(** What [lessThan] computes: across origins the enumerated value decides,
    document before remote before local; within one origin the names are
    compared as Python compares [str], by code point. *)
Lemma less_by_origin_then_name (l r : CustomWorkflow.t) :
  (CustomWorkflow.source l ≠ CustomWorkflow.source r →
   SortedWorkflows.less l r
   = (WorkflowSource_value (CustomWorkflow.source l)
      <? WorkflowSource_value (CustomWorkflow.source r)))
  ∧ (CustomWorkflow.source l = CustomWorkflow.source r →
     SortedWorkflows.less l r
     = String.ltb (CustomWorkflow.name l) (CustomWorkflow.name r)).
Proof.
  unfold SortedWorkflows.less. split; intros H.
  - by rewrite bool_decide_eq_false_2.
  - by rewrite bool_decide_eq_true_2.
Qed.

Lemma less_origin_order (l r : CustomWorkflow.t) :
  CustomWorkflow.source l ≠ CustomWorkflow.source r →
  SortedWorkflows.less l r = true ↔
  match CustomWorkflow.source l, CustomWorkflow.source r with
  | document, (remote | local) | remote, local => True
  | _, _ => False
  end.
Proof.
  intros Hne. unfold SortedWorkflows.less.
  rewrite bool_decide_eq_false_2 by done.
  destruct (CustomWorkflow.source l), (CustomWorkflow.source r); simpl;
    done || (split; [discriminate | done]).
Qed.

(** C5, on the code: within one origin [lessThan] compares the names case
    by case.  ["B"] is put before ["a"], which an ordering that ignores case
    puts the other way round; the collection holding the two in that order
    shows it through [lessThan] itself. *)
Theorem lessThan_orders_names_by_case :
  SortedWorkflows.less upper_B lower_a = true ∧
  SortedWorkflows.less lower_a upper_B = false ∧
  less_ignoring_case upper_B lower_a = false ∧
  less_ignoring_case lower_a upper_B = true ∧
  SortedWorkflows.lessThan (WorkflowCollection.mk [upper_B; lower_a])
    (RowIndex 0) (RowIndex 1) = Ok true.
Proof. by vm_compute. Qed.

(** ** Selecting a workflow *)

Section Selection.
Import CustomWorkspace.
Variable import_graph : pyval -> result ComfyWorkflow.

(** [_update_workflow] with the invalid index looks at row [-1]: the last
    entry, and no entry at all in an empty collection. *)
Lemma entry_at_invalid_empty (s : System) :
  WorkflowCollection._workflows (workflows s) = [] →
  entry_at InvalidIndex s = (Raise IndexError, s).
Proof.
  intros Hl. unfold entry_at, bind, gets. simpl (row InvalidIndex).
  by rewrite py_index_invalid, Hl.
Qed.

Lemma entry_at_invalid_last (s : System) :
  WorkflowCollection._workflows (workflows s) ≠ [] →
  ∃ k wf, WorkflowCollection._workflows (workflows s) !! k = Some wf ∧
          entry_at InvalidIndex s = (Ok (k, wf), s).
Proof.
  intros Hl. unfold entry_at, bind, gets. simpl (row InvalidIndex).
  rewrite py_index_invalid.
  destruct (WorkflowCollection._workflows (workflows s)) as [|w rest] eqn:Heq;
    [done|].
  destruct (lookup_lt_is_Some_2 (w :: rest) (length (w :: rest) - 1)%nat)
    as [wf Hwf]; [simpl; lia|].
  exists (length (w :: rest) - 1)%nat, wf. split; [done|].
  simpl in *. by rewrite Hwf.
Qed.

(** Selecting, in an empty collection, an id other than the current one:
    the id is recorded and [IndexError] comes out of the call. *)
Lemma select_absent_empty (id : string) (s : System) :
  WorkflowCollection._workflows (workflows s) = [] →
  _workflow_id (workspace s) ≠ id →
  ∃ s', _set_workflow_id import_graph id s = (Raise IndexError, s') ∧
        _workflow_id (workspace s') = id ∧
        _workflow (workspace s') = _workflow (workspace s) ∧
        _graph (workspace s') = _graph (workspace s).
Proof.
  intros Hrows Hother.
  unfold _set_workflow_id, bind at 1, gets at 1.
  destruct (String.eqb_spec (_workflow_id (workspace s)) id) as [|_]; [done|].
  unfold bind at 1 2 3 4, modify_workspace, gets. cbn [fst snd].
  unfold WorkflowCollection.find_index. cbn [workflows]. rewrite Hrows.
  cbn [WorkflowCollection.find_index_from].
  unfold _update_workflow, bind at 1.
  rewrite entry_at_invalid_empty by done. by eexists.
Qed.

(** Selecting an id the collection does not hold, when it holds something:
    the id is recorded, the active workflow and graph are left as they
    were, and the call returns. *)
Lemma select_absent_nonempty (id : string) (s : System) :
  id ∉ ids (workflows s) →
  WorkflowCollection._workflows (workflows s) ≠ [] →
  _workflow_id (workspace s) ≠ id →
  ∃ s', _set_workflow_id import_graph id s = (Ok tt, s') ∧
        _workflow_id (workspace s') = id ∧
        _workflow (workspace s') = _workflow (workspace s) ∧
        _graph (workspace s') = _graph (workspace s) ∧
        workflows s' = workflows s.
Proof.
  intros Habsent Hrows Hother.
  unfold _set_workflow_id, bind at 1, gets at 1.
  destruct (String.eqb_spec (_workflow_id (workspace s)) id) as [|_]; [done|].
  unfold bind at 1 2 3 4, modify_workspace, gets. cbn [fst snd].
  pose proof (find_index_from_spec 0
                (WorkflowCollection._workflows (workflows s)) id) as Hfind.
  unfold WorkflowCollection.find_index. cbn [workflows].
  destruct (WorkflowCollection.find_index_from 0 _ id) as [|r].
  2:{ destruct Hfind as (k & wf & _ & Hk & Hid & _).
      exfalso. apply Habsent. rewrite <- Hid. by eapply row_id_known. }
  unfold _update_workflow, bind at 1.
  set (s1 := mkSystem _ _ _).
  destruct (entry_at_invalid_last s1) as (k & wf & Hk & ->); [done|].
  unfold bind, gets. cbn [workspace s1 _workflow_id emit set_workflow_id_field].
  destruct (String.eqb_spec (CustomWorkflow.id wf) id) as [Heq|_].
  { exfalso. apply Habsent. rewrite <- Heq. by eapply (row_id_known _ k). }
  by eexists.
Qed.
End Selection.

(** C6, on the code: in an empty collection, selecting an id records the id
    and then raises [IndexError]: the lookup finds no row, and
    [_update_workflow] reads row [-1] of the empty list. *)
Theorem select_on_empty_collection_raises
    (import_graph : pyval -> result ComfyWorkflow) :
  CustomWorkspace._set_workflow_id import_graph "a" empty_system
  = (Raise IndexError,
     CustomWorkspace.mkSystem (WorkflowCollection.mk [])
       (CustomWorkspace.mk "a" ∅ None None [] 
          [CustomWorkspace.workflow_id_changed "a";
           CustomWorkspace.modified "workflow_id"])
       []).
Proof. reflexivity. Qed.

(** ** Runs of the whole system *)

(** The collection of a running system is the ingestion of what its events
    brought. *)
Lemma run_workflows (import_graph : pyval -> result ComfyWorkflow)
    (events : list Event) (s : CustomWorkspace.System) :
  CustomWorkspace.workflows (run import_graph events s)
  = ingest_all (omap arrival_of events) (CustomWorkspace.workflows s).
Proof.
  revert s. induction events as [|ev rest IH]; intros s; simpl; [done|].
  rewrite IH. destruct ev as [connection id|id graph|id]; simpl.
  - by rewrite published_workflows.
  - by rewrite set_graph_workflows.
  - by rewrite select_workflows.
Qed.

(** From start-up on: the collection built by [__init__] and then driven by
    any events is the ingestion of the scanned files, the backend's snapshot
    and what the events brought, in that order. *)
Lemma system_workflows (import_graph : pyval -> result ComfyWorkflow)
    (connection : Connection.t) (files : list LocalFile.t)
    (events : list Event) :
  ∃ c, (WorkflowCollection.__init__ connection files).1 = Ok c ∧
    CustomWorkspace.workflows
      (run import_graph events (CustomWorkspace.__init__ import_graph c).2)
    = ingest_all
        ((FromFile <$> files)
         ++ (FromRemote connection <$> Connection.keys connection)
         ++ omap arrival_of events)
        (WorkflowCollection.mk []).
Proof.
  eexists. split; [by rewrite init_ingest|].
  rewrite run_workflows. unfold CustomWorkspace.__init__.
  rewrite (keeps_set_default_workflow import_graph). simpl.
  by rewrite app_assoc, (ingest_all_app (_ ++ _)).
Qed.

(** * Further properties of the code *)

(** ** Looking workflows up *)

Section Lookup.
Import WorkflowCollection.
Implicit Types (c : WorkflowCollection.t) (w wf : CustomWorkflow.t).

(** The first row holding an id is the row [find_index] and [find] answer
    with. *)
Lemma find_first c id r wf :
  _workflows c !! r = Some wf →
  CustomWorkflow.id wf = id →
  (∀ j wf', (j < r)%nat → _workflows c !! j = Some wf' →
            CustomWorkflow.id wf' ≠ id) →
  find_index c id = RowIndex r ∧ find c id = Ok (Some wf).
Proof.
  intros Hr Hid Hfirst. unfold find, find_index.
  pose proof (find_index_from_spec 0 (_workflows c) id) as H.
  destruct (find_index_from 0 (_workflows c) id) as [|r'].
  - exfalso. apply H. rewrite <- Hid. by eapply row_id_known.
  - destruct H as (k & wf' & -> & Hk & Hid' & Hmin). simpl in *.
    assert (k = r) as ->.
    { destruct (Nat.lt_trichotomy k r) as [Hlt|[Heq|Hgt]]; [|done|].
      - exfalso. by apply (Hfirst k wf').
      - exfalso. by apply (Hmin r wf). }
    split; [done|]. unfold py_getitem.
    rewrite py_index_row by (by eapply lookup_lt_Some). by rewrite Hr.
Qed.

Lemma first_row_of_id c id :
  id ∈ ids c →
  ∃ r wf, _workflows c !! r = Some wf ∧ CustomWorkflow.id wf = id ∧
          ∀ j wf', (j < r)%nat → _workflows c !! j = Some wf' →
                   CustomWorkflow.id wf' ≠ id.
Proof.
  intros Hin.
  pose proof (find_index_from_spec 0 (_workflows c) id) as H.
  destruct (find_index_from 0 (_workflows c) id) as [|r']; [done|].
  destruct H as (k & wf & _ & Hk & Hid & Hmin). by exists k, wf.
Qed.
Lemma find_index_absent c id :
  id ∉ ids c → find_index c id = InvalidIndex.
Proof.
  intros Hout. unfold find_index.
  pose proof (find_index_from_spec 0 (_workflows c) id) as H.
  destruct (find_index_from 0 (_workflows c) id) as [|r]; [done|].
  exfalso. destruct H as (k & wf & _ & Hk & Hid & _).
  apply Hout. rewrite <- Hid. by eapply row_id_known.
Qed.
End Lookup.


(** X2. Whatever arrives through [_process] can be looked up afterwards:
    [_process] returns normally, and [get] with the arriving id then gives an
    entry with that id and the arriving graph. *)
Theorem process_then_get (c : WorkflowCollection.t) (w : CustomWorkflow.t) :
  ∃ c' sigs wf,
    WorkflowCollection._process w c = Ok (c', sigs) ∧
    WorkflowCollection.get c' (CustomWorkflow.id w) = Ok wf ∧
    CustomWorkflow.id wf = CustomWorkflow.id w ∧
    CustomWorkflow.graph wf = CustomWorkflow.graph w.
Proof.
  destruct (process_cases w c) as [(r & wf & Hr & Hid & Hfirst & ->)|[Hnew ->]].
  - eexists _, _, (CustomWorkflow.with_graph (CustomWorkflow.graph w) wf).
    split; [done|].
    destruct (find_first
                (WorkflowCollection.mk
                   (alter (CustomWorkflow.with_graph (CustomWorkflow.graph w)) r
                      (WorkflowCollection._workflows c)))
                (CustomWorkflow.id w) r
                (CustomWorkflow.with_graph (CustomWorkflow.graph w) wf))
      as [_ Hfind].
    + simpl. by rewrite list_lookup_alter_eq, Hr.
    + done.
    + intros j wf' Hlt Hj. simpl in Hj.
      rewrite list_lookup_alter_ne in Hj by lia. by apply (Hfirst j).
    + unfold WorkflowCollection.get. rewrite Hfind. done.
  - eexists _, _, w. split; [done|].
    destruct (find_first
                (WorkflowCollection.mk (WorkflowCollection._workflows c ++ [w]))
                (CustomWorkflow.id w)
                (length (WorkflowCollection._workflows c)) w) as [_ Hfind].
    + simpl. by rewrite lookup_app_r, Nat.sub_diag by lia.
    + done.
    + intros j wf' Hlt Hj. simpl in Hj.
      rewrite lookup_app_l in Hj by done.
      intros Heq. apply Hnew. rewrite <- Heq. by eapply row_id_known.
    + unfold WorkflowCollection.get. rewrite Hfind. done.
Qed.

(** X3. A workflow arriving under an id the collection does not hold is
    appended as it is, origin included, behind the rows that were there, and
    the one notification emitted is [rowsInserted] for the new last row. *)
Theorem process_new_appends (c : WorkflowCollection.t) (w : CustomWorkflow.t) :
  CustomWorkflow.id w ∉ ids c →
  WorkflowCollection._process w c
  = Ok (WorkflowCollection.mk (WorkflowCollection._workflows c ++ [w]),
        [rowsInserted (WorkflowCollection.rowCount c)
                      (WorkflowCollection.rowCount c)]).
Proof.
  intros Hnew.
  destruct (process_cases w c) as [(r & wf & Hr & Hid & _)|[_ H]]; [|done].
  exfalso. apply Hnew. rewrite <- Hid. by eapply row_id_known.
Qed.

Lemma process_new_appends_witness :
  WorkflowCollection._process new_remote three_origins
  = Ok (WorkflowCollection.mk
          (WorkflowCollection._workflows three_origins ++ [new_remote]),
        [rowsInserted (WorkflowCollection.rowCount three_origins)
                      (WorkflowCollection.rowCount three_origins)]).
Proof.
  apply (process_new_appends three_origins new_remote).
  apply (bool_decide_unpack _). by vm_compute.
Defined.

(** X4. In a collection whose ids are distinct, what [data] hands out for a
    row leads back to that row: under the user role it is the id of the row,
    and [find_index] with that id is the index of the row; under the display
    role it is the name.  Any other role gives [None] for any index, the
    invalid one included. *)
Theorem data_round_trip (c : WorkflowCollection.t) (r : nat)
    (wf : CustomWorkflow.t) :
  NoDup (ids c) →
  WorkflowCollection._workflows c !! r = Some wf →
  WorkflowCollection.data c (RowIndex r) UserRole
    = Ok (Some (CustomWorkflow.id wf)) ∧
  WorkflowCollection.find_index c (CustomWorkflow.id wf) = RowIndex r ∧
  WorkflowCollection.data c (RowIndex r) DisplayRole
    = Ok (Some (CustomWorkflow.name wf)) ∧
  (∀ index role, role ≠ DisplayRole → role ≠ UserRole →
                 WorkflowCollection.data c index role = Ok None).
Proof.
  intros Hnd Hr.
  assert (py_getitem (WorkflowCollection._workflows c) (row (RowIndex r)) = Ok wf)
    as Hget.
  { unfold py_getitem. simpl.
    rewrite py_index_row by (by eapply lookup_lt_Some). by rewrite Hr. }
  split_and!.
  - unfold WorkflowCollection.data. simpl (_ =? _). by rewrite Hget.
  - apply (find_first c (CustomWorkflow.id wf) r wf Hr eq_refl).
    intros j wf' Hlt Hj Heq.
    assert (j = r); [|lia].
    eapply (NoDup_lookup (ids c)); [done | |].
    + unfold ids. rewrite list_lookup_fmap, Hj. simpl. by rewrite Heq.
    + unfold ids. by rewrite list_lookup_fmap, Hr.
  - unfold WorkflowCollection.data. simpl (_ =? _). by rewrite Hget.
  - intros index role Hd Hu. unfold WorkflowCollection.data.
    destruct (Z.eqb_spec role DisplayRole); [done|].
    by destruct (Z.eqb_spec role UserRole).
Qed.

Lemma data_round_trip_witness :
  WorkflowCollection.data three_origins (RowIndex 1) UserRole
    = Ok (Some "a.json") ∧
  WorkflowCollection.find_index three_origins "a.json" = RowIndex 1 ∧
  WorkflowCollection.data three_origins (RowIndex 1) DisplayRole
    = Ok (Some "a") ∧
  (∀ index role, role ≠ DisplayRole → role ≠ UserRole →
                 WorkflowCollection.data three_origins index role = Ok None).
Proof.
  apply (data_round_trip three_origins 1
           (CustomWorkflow.make3 "a.json" remote (VInt 2))).
  - apply (bool_decide_unpack _). by vm_compute.
  - reflexivity.
Defined.

(** ** Display names *)

Section Names.
Implicit Types (s suffix : string).

Lemma string_length_app s suffix :
  String.length (s ++ suffix) = (String.length s + String.length suffix)%nat.
Proof. induction s as [|a s IH]; simpl; [done|]. by rewrite IH. Qed.

Lemma substring_all s : substring 0 (String.length s) s = s.
Proof. induction s as [|a s IH]; simpl; [done|]. by rewrite IH. Qed.

Lemma substring_app_front s suffix :
  substring 0 (String.length s) (s ++ suffix) = s.
Proof.
  induction s as [|a s IH]; simpl.
  - by destruct suffix.
  - by rewrite IH.
Qed.

Lemma substring_app_back s suffix :
  substring (String.length s) (String.length suffix) (s ++ suffix) = suffix.
Proof. induction s as [|a s IH]; simpl; [apply substring_all | done]. Qed.

(** A string is its first [k] characters followed by the rest. *)
Lemma substring_split s (k : nat) :
  (k ≤ String.length s)%nat →
  (substring 0 k s ++ substring k (String.length s - k) s)%string = s.
Proof.
  revert k. induction s as [|a s IH]; intros k Hk; simpl in *.
  - by destruct k.
  - destruct k as [|k]; simpl.
    + by rewrite substring_all.
    + change (String a (substring 0 k s ++ substring k (String.length s - k) s)%string
              = String a s).
      f_equal. apply IH. lia.
Qed.

Lemma endswith_app s suffix : endswith (s ++ suffix) suffix = true.
Proof.
  unfold endswith. rewrite string_length_app.
  replace (String.length s + String.length suffix - String.length suffix)%nat
    with (String.length s) by lia.
  rewrite substring_app_back, String.eqb_refl.
  rewrite andb_true_r. apply Nat.leb_le. lia.
Qed.

Lemma endswith_inv s suffix :
  endswith s suffix = true →
  (substring 0 (String.length s - String.length suffix) s ++ suffix)%string = s.
Proof.
  unfold endswith. intros [Hlen Heq%String.eqb_eq]%andb_true_iff.
  apply Nat.leb_le in Hlen.
  pose proof (substring_split s (String.length s - String.length suffix)) as H.
  replace (String.length s - (String.length s - String.length suffix))%nat
    with (String.length suffix) in H by lia.
  rewrite Heq in H. apply H. lia.
Qed.

Lemma removesuffix_app s suffix : removesuffix (s ++ suffix) suffix = s.
Proof.
  unfold removesuffix. rewrite endswith_app.
  destruct (String.eqb_spec suffix "") as [->|Hne]; simpl.
  - clear. induction s as [|a s IH]; [done|].
    change (String a (s ++ "")%string = String a s). by rewrite IH.
  - rewrite string_length_app.
    replace (String.length s + String.length suffix - String.length suffix)%nat
      with (String.length s) by lia.
    apply substring_app_front.
Qed.

Lemma removesuffix_other s suffix :
  (∀ stem, s ≠ (stem ++ suffix)%string) → removesuffix s suffix = s.
Proof.
  intros Hno. unfold removesuffix.
  destruct (endswith s suffix) eqn:Hend; [|by rewrite andb_false_r].
  exfalso. eapply Hno. symmetry. by apply endswith_inv.
Qed.
End Names.

(** X5. The display name of a workflow is its id with one trailing [.json]
    taken off: the name of the id [stem ++ ".json"] is [stem], and an id that
    does not end in [.json] is its own name. *)
Theorem name_strips_json_suffix :
  (∀ stem source graph path,
     CustomWorkflow.name
       (CustomWorkflow.mk (stem ++ ".json") source graph path) = stem) ∧
  (∀ w, (∀ stem, CustomWorkflow.id w ≠ (stem ++ ".json")%string) →
        CustomWorkflow.name w = CustomWorkflow.id w).
Proof.
  split.
  - intros. unfold CustomWorkflow.name. simpl. apply removesuffix_app.
  - intros w Hno. unfold CustomWorkflow.name. by apply removesuffix_other.
Qed.

(** X6. Ids are distinct, names need not be: a workflow whose id does not
    end in [.json] and the workflow whose id is that id followed by [.json]
    are two entries for the collection and carry the same display name. *)
Theorem names_can_collide (id : string) (l r : CustomWorkflow.t) :
  (∀ stem, id ≠ (stem ++ ".json")%string) →
  CustomWorkflow.id l = id →
  CustomWorkflow.id r = (id ++ ".json")%string →
  CustomWorkflow.id l ≠ CustomWorkflow.id r ∧
  CustomWorkflow.name l = CustomWorkflow.name r.
Proof.
  intros Hno Hl Hr. split.
  - rewrite Hl, Hr. apply Hno.
  - unfold CustomWorkflow.name. rewrite Hl, Hr.
    by rewrite removesuffix_app, removesuffix_other.
Qed.

Lemma names_can_collide_witness :
  CustomWorkflow.id (CustomWorkflow.make3 "a" local (VInt 1))
  ≠ CustomWorkflow.id (CustomWorkflow.make3 "a.json" remote (VInt 2)) ∧
  CustomWorkflow.name (CustomWorkflow.make3 "a" local (VInt 1))
  = CustomWorkflow.name (CustomWorkflow.make3 "a.json" remote (VInt 2)).
Proof.
  apply (names_can_collide "a").
  - intros [|c [|c' stem]]; discriminate.
  - reflexivity.
  - reflexivity.
Defined.

(** ** The comparator of the sorted view is a strict order *)

Section Comparator.
Implicit Types (s : string) (l r : CustomWorkflow.t).

Lemma ascii_compare_refl (a : ascii) : Ascii.compare a a = Eq.
Proof. apply N.compare_refl. Qed.

Lemma ascii_compare_lt_trans (a b c : ascii) :
  Ascii.compare a b = Lt → Ascii.compare b c = Lt → Ascii.compare a c = Lt.
Proof.
  unfold Ascii.compare. rewrite !N.compare_lt_iff. apply N.lt_trans.
Qed.

Lemma string_compare_refl s : String.compare s s = Eq.
Proof.
  induction s as [|a s IH]; simpl; [done|]. by rewrite ascii_compare_refl.
Qed.

Lemma string_compare_lt_trans s1 s2 s3 :
  String.compare s1 s2 = Lt → String.compare s2 s3 = Lt →
  String.compare s1 s3 = Lt.
Proof.
  revert s2 s3. induction s1 as [|a s1 IH]; intros [|b s2] [|c s3]; simpl;
    try done.
  destruct (Ascii.compare a b) eqn:Hab; [|intros _|done].
  - apply Ascii.compare_eq_iff in Hab as ->.
    destruct (Ascii.compare b c); [apply IH | done | done].
  - destruct (Ascii.compare b c) eqn:Hbc; [|intros _|done].
    + apply Ascii.compare_eq_iff in Hbc as <-. by rewrite Hab.
    + by rewrite (ascii_compare_lt_trans a b c).
Qed.

Lemma ltb_lt s1 s2 : String.ltb s1 s2 = true ↔ String.compare s1 s2 = Lt.
Proof. unfold String.ltb. destruct (String.compare s1 s2); naive_solver. Qed.

Lemma ltb_irrefl s : String.ltb s s = false.
Proof. unfold String.ltb. by rewrite string_compare_refl. Qed.

Lemma ltb_asym s1 s2 : String.ltb s1 s2 = true → String.ltb s2 s1 = false.
Proof.
  unfold String.ltb. rewrite (String.compare_antisym s2 s1).
  by destruct (String.compare s1 s2).
Qed.

Lemma ltb_neither s1 s2 :
  String.ltb s1 s2 = false → String.ltb s2 s1 = false → s1 = s2.
Proof.
  unfold String.ltb. rewrite (String.compare_antisym s2 s1).
  destruct (String.compare s1 s2) eqn:H; [|done|done].
  intros _ _. by apply String.compare_eq_iff.
Qed.
End Comparator.

(** X7. [lessThan] compares by a strict order: no entry comes before itself,
    two entries never come before each other, and coming before is
    transitive, across origins and names alike. *)
Theorem less_strict_order :
  (∀ w, SortedWorkflows.less w w = false) ∧
  (∀ l r, SortedWorkflows.less l r = true → SortedWorkflows.less r l = false) ∧
  (∀ a b c, SortedWorkflows.less a b = true → SortedWorkflows.less b c = true →
            SortedWorkflows.less a c = true).
Proof.
  unfold SortedWorkflows.less. split_and!.
  - intros w. rewrite bool_decide_eq_true_2 by done. apply ltb_irrefl.
  - intros l r.
    destruct (CustomWorkflow.source l), (CustomWorkflow.source r); simpl;
      try done; apply ltb_asym.
  - intros a b c.
    destruct (CustomWorkflow.source a), (CustomWorkflow.source b),
      (CustomWorkflow.source c); simpl; try done;
      rewrite !ltb_lt; apply string_compare_lt_trans.
Qed.

(** X8. Two entries are left unordered by [lessThan], neither before the
    other, exactly when they have the same origin and the same display
    name; in every other case one of them comes first. *)
Theorem less_ties (l r : CustomWorkflow.t) :
  (SortedWorkflows.less l r = false ∧ SortedWorkflows.less r l = false)
  ↔ (CustomWorkflow.source l = CustomWorkflow.source r ∧
     CustomWorkflow.name l = CustomWorkflow.name r).
Proof.
  unfold SortedWorkflows.less. split.
  - destruct (CustomWorkflow.source l), (CustomWorkflow.source r); simpl;
      intros [H1 H2]; try done; split; try done; by apply ltb_neither.
  - intros [-> ->]. rewrite bool_decide_eq_true_2 by done.
    split; apply ltb_irrefl.
Qed.

(** ** More on coercion *)

Lemma use_idempotent (v d : pyval) : use (use v d) d = use v d.
Proof. destruct v, d; done. Qed.

Lemma use_type (v d : pyval) : type_of (use v d) = type_of d.
Proof. destruct v, d; done. Qed.

Lemma coerce_lookup (params out : gmap string pyval)
    (types : list CustomParam.t) (k : string) :
  _coerce params types = Some out →
  out !! k = (λ t, use (dict_get params k) (CustomParam.default t))
             <$> deciding k types.
Proof.
  intros Hout. rewrite (coerce_into_lookup _ _ _ _ k Hout).
  destruct (deciding k types); [done | apply lookup_empty].
Qed.

(** X9. Coercing twice is coercing once: the result of [_coerce] is left as
    it is when coerced again against the same schema. *)
Theorem coerce_idempotent (params : gmap string pyval)
    (types : list CustomParam.t) :
  Forall (λ t, ∃ k, CustomParam.name t = VStr k) types →
  ∃ out : gmap string pyval,
    _coerce params types = Some out ∧ _coerce out types = Some out.
Proof.
  intros Hstr.
  destruct (coerce_into_total params ∅ types Hstr) as [out Hout].
  destruct (coerce_into_total out ∅ types Hstr) as [again Hagain].
  exists out. split; [done|].
  unfold _coerce. rewrite Hagain. f_equal. apply map_eq. intros k.
  rewrite (coerce_lookup out again types k Hagain).
  rewrite (coerce_lookup params out types k Hout).
  destruct (deciding k types) as [t|] eqn:Hd; simpl; [|done].
  unfold dict_get at 1.
  rewrite (coerce_lookup params out types k Hout), Hd. simpl.
  by rewrite use_idempotent.
Qed.

Lemma coerce_idempotent_witness :
  ∃ out : gmap string pyval,
    _coerce sample_params sample_schema = Some out ∧
    _coerce out sample_schema = Some out.
Proof.
  apply (coerce_idempotent sample_params sample_schema).
  repeat constructor. by exists "Steps".
Defined.

(** X10. After coercion every value has the runtime type of a default: each
    entry of the result is named by a descriptor of the schema, has exactly
    the type of that descriptor's default, and is that default or the value
    that was stored under the name. *)
Theorem coerce_values_typed (params out : gmap string pyval)
    (types : list CustomParam.t) (k : string) (v : pyval) :
  _coerce params types = Some out →
  out !! k = Some v →
  ∃ t, t ∈ types ∧ CustomParam.name t = VStr k ∧
       type_of v = type_of (CustomParam.default t) ∧
       (v = CustomParam.default t ∨ params !! k = Some v).
Proof.
  intros Hout Hk. rewrite (coerce_lookup params out types k Hout) in Hk.
  destruct (deciding k types) as [t|] eqn:Hd; [|done].
  simpl in Hk. inversion Hk as [Hv].
  apply deciding_Some in Hd as [Hin Hname].
  exists t. split_and!; [done | done | apply use_type |].
  rewrite use_kept_or_default. unfold kept_or_default.
  destruct (params !! k) as [v'|]; [|by left].
  case_decide; [by right | by left].
Qed.

Lemma coerce_values_typed_witness :
  ∃ t, t ∈ sample_schema ∧ CustomParam.name t = VStr "Steps" ∧
       type_of (VInt 5) = type_of (CustomParam.default t) ∧
       (VInt 5 = CustomParam.default t ∨ sample_params !! "Steps" = Some (VInt 5)).
Proof.
  apply (coerce_values_typed sample_params {[ "Steps" := VInt 5 ]}
           sample_schema "Steps" (VInt 5)); reflexivity.
Defined.

(** X11. Coercion looks at the type of a stored value and at nothing else:
    under an integer parameter, a stored integer is kept whatever the
    descriptor's [min] and [max] are, while a stored boolean, whose type is
    not [int], gives way to the default. *)
Theorem coerce_ignores_bounds (params out : gmap string pyval)
    (types : list CustomParam.t) (i : nat) (t : CustomParam.t) (k : string)
    (d : Z) :
  _coerce params types = Some out →
  types !! i = Some t →
  CustomParam.name t = VStr k →
  (∀ j t', (i < j)%nat → types !! j = Some t' → CustomParam.name t' ≠ VStr k) →
  CustomParam.default t = VInt d →
  (∀ z, params !! k = Some (VInt z) → out !! k = Some (VInt z)) ∧
  (∀ b, params !! k = Some (VBool b) → out !! k = Some (VInt d)).
Proof.
  intros Hout Hi Hname Hlater Hdefault.
  assert (out !! k = Some (use (dict_get params k) (VInt d))) as Hk.
  { rewrite (coerce_lookup params out types k Hout).
    rewrite (deciding_last k types i t Hi Hname Hlater). simpl.
    by rewrite Hdefault. }
  split; intros x Hx; rewrite Hk; unfold dict_get; by rewrite Hx.
Qed.

Lemma coerce_ignores_bounds_witness :
  (∀ z, out_of_bounds_params !! "Steps" = Some (VInt z) →
        ({[ "Steps" := VInt 5000 ]} : gmap string pyval) !! "Steps"
        = Some (VInt z)) ∧
  (∀ b, out_of_bounds_params !! "Steps" = Some (VBool b) →
        ({[ "Steps" := VInt 5000 ]} : gmap string pyval) !! "Steps"
        = Some (VInt 20)).
Proof.
  apply (coerce_ignores_bounds out_of_bounds_params {[ "Steps" := VInt 5000 ]}
           steps_schema 0
           (CustomParam.mk number_int (VStr "Steps") (VInt 20) (VInt 1) (VInt 100))
           "Steps" 20).
  - reflexivity.
  - reflexivity.
  - reflexivity.
  - intros [|j] t' Hlt Hj; [lia | discriminate].
  - reflexivity.
Defined.

(** X12. A graph with no node of the three parameter types has the empty
    schema, and coercing against it drops every stored value. *)
Theorem coerce_without_parameters (w : ComfyWorkflow)
    (params : gmap string pyval) :
  (∀ node, node ∈ w →
     ComfyNode.type node ≠ "ETN_KritaImageLayer" ∧
     ComfyNode.type node ≠ "ETN_KritaMaskLayer" ∧
     ComfyNode.type node ≠ "ETN_IntParameter") →
  _gather_params w = [] ∧ _coerce params (_gather_params w) = Some ∅.
Proof.
  intros Hplain.
  assert (_gather_params w = []) as ->; [|done].
  induction w as [|node rest IH]; simpl; [done|].
  rewrite IH by (intros n Hn; apply Hplain; by right).
  destruct (Hplain node) as (H1 & H2 & H3); [by left|].
  unfold gather_node.
  destruct (String.eqb_spec (ComfyNode.type node) "ETN_KritaImageLayer"); [done|].
  destruct (String.eqb_spec (ComfyNode.type node) "ETN_KritaMaskLayer"); [done|].
  by destruct (String.eqb_spec (ComfyNode.type node) "ETN_IntParameter").
Qed.

Lemma coerce_without_parameters_witness :
  _gather_params plain_graph = [] ∧
  _coerce sample_params (_gather_params plain_graph) = Some ∅.
Proof.
  apply (coerce_without_parameters plain_graph sample_params).
  intros node Hin.
  repeat (apply elem_of_cons in Hin as [->|Hin]; [by split_and!|]).
  by apply elem_of_nil in Hin.
Defined.

(** ** The workspace reacting to the collection *)

Section Reactions.
Import CustomWorkspace.
Variable import_graph : pyval -> result ComfyWorkflow.

Lemma entry_at_row (s : System) (r : nat) (wf : CustomWorkflow.t) :
  WorkflowCollection._workflows (workflows s) !! r = Some wf →
  entry_at (RowIndex r) s = (Ok (r, wf), s).
Proof.
  intros Hr. unfold entry_at, bind, gets. simpl.
  rewrite py_index_row by (by eapply lookup_lt_Some). by rewrite Hr.
Qed.


(** [_update_workflow] for the row of the selected workflow, when its graph
    parses: the workflow, its graph and schema are taken over and the stored
    values coerced. *)
Lemma update_workflow_selected (s : System) (r : nat) (wf : CustomWorkflow.t)
    (g : ComfyWorkflow) (coerced : gmap string pyval) :
  WorkflowCollection._workflows (workflows s) !! r = Some wf →
  CustomWorkflow.id wf = _workflow_id (workspace s) →
  import_graph (CustomWorkflow.graph wf) = Ok g →
  _coerce (_params (workspace s)) (_gather_params g) = Some coerced →
  _update_workflow import_graph (RowIndex r) s
  = (Ok tt,
     mkSystem (workflows s)
       (mk (_workflow_id (workspace s)) coerced (Some r) (Some g)
          (_gather_params g) (emitted (workspace s) ++ [graph_changed]))
       (reported s)).
Proof.
  intros Hr Hsel Hparse Hcoerce. unfold _update_workflow, bind at 1.
  rewrite (entry_at_row s r wf Hr). unfold bind at 1, gets at 1. cbn [fst snd].
  rewrite Hsel, String.eqb_refl.
  unfold bind, lift, gets, modify_workspace, parsed. cbn.
  rewrite Hparse. cbn. rewrite Hcoerce. done.
Qed.

(** [_update_workflow] for the row of the selected workflow, when its graph
    does not parse: the exception leaves, the workflow has been taken over,
    graph, schema and values are the old ones. *)
Lemma update_workflow_unparsed (s : System) (r : nat) (wf : CustomWorkflow.t)
    (e : exn) :
  WorkflowCollection._workflows (workflows s) !! r = Some wf →
  CustomWorkflow.id wf = _workflow_id (workspace s) →
  import_graph (CustomWorkflow.graph wf) = Raise e →
  _update_workflow import_graph (RowIndex r) s
  = (Raise e,
     mkSystem (workflows s) (set_workflow (Some r) (workspace s)) (reported s)).
Proof.
  intros Hr Hsel Hparse. unfold _update_workflow, bind at 1.
  rewrite (entry_at_row s r wf Hr). unfold bind at 1, gets at 1. cbn [fst snd].
  rewrite Hsel, String.eqb_refl.
  unfold bind, lift, gets, modify_workspace, parsed. cbn.
  by rewrite Hparse.
Qed.
(** The slots, seen from the caller of a method of the collection. *)
Lemma deliver_data_changed (s : System) (r : nat) :
  deliver import_graph [dataChanged (RowIndex r) (RowIndex r)] s
  = match _update_workflow import_graph (RowIndex r) s with
    | (Ok _, s') => (Ok tt, s')
    | (Raise e, s') =>
        (Ok tt, mkSystem (workflows s') (workspace s') (reported s' ++ [e]))
    end.
Proof.
  unfold deliver, slot, bind, in_slot, ret.
  by destruct (_update_workflow import_graph (RowIndex r) s) as [[[]|e] s'].
Qed.

Lemma deliver_rows_inserted (s : System) (first last : nat) :
  deliver import_graph [rowsInserted first last] s
  = match _set_default_workflow import_graph s with
    | (Ok _, s') => (Ok tt, s')
    | (Raise e, s') =>
        (Ok tt, mkSystem (workflows s') (workspace s') (reported s' ++ [e]))
    end.
Proof.
  unfold deliver, slot, bind, in_slot, ret.
  by destruct (_set_default_workflow import_graph s) as [[[]|e] s'].
Qed.

Lemma set_default_workflow_selected (s : System) :
  _workflow_id (workspace s) ≠ "" →
  _set_default_workflow import_graph s = (Ok tt, s).
Proof.
  intros Hsel. unfold _set_default_workflow, bind, gets. simpl.
  by destruct (String.eqb_spec (_workflow_id (workspace s)) "").
Qed.

Lemma system_eta (s : System) :
  mkSystem (workflows s) (workspace s) (reported s) = s.
Proof. by destruct s. Qed.

(** What a publication does, in terms of the collection's [_process] and the
    delivery of its notifications. *)
Lemma publish_unfold connection id graph c' sigs (s : System) :
  Connection.getitem connection id = Ok graph →
  WorkflowCollection._process (CustomWorkflow.make3 id remote graph) (workflows s)
  = Ok (c', sigs) →
  CustomWorkspace._process_remote_workflow import_graph connection id s
  = deliver import_graph sigs (mkSystem c' (workspace s) (reported s)).
Proof.
  intros Hget Hrun.
  unfold CustomWorkspace._process_remote_workflow, on_collection,
    WorkflowCollection._process_remote_workflow, bind, gets, lift, put_workflows.
  simpl. by rewrite Hget, Hrun.
Qed.

(** The setter with an id other than the current one: the id is stored,
    the two signals are emitted, and the workflow found under the id is
    resolved. *)
Lemma set_workflow_id_other (id : string) (s : System) :
  _workflow_id (workspace s) ≠ id →
  _set_workflow_id import_graph id s
  = _update_workflow import_graph
      (WorkflowCollection.find_index (workflows s) id)
      (mkSystem (workflows s)
         (emit (modified "workflow_id")
            (emit (workflow_id_changed id)
               (set_workflow_id_field id (workspace s))))
         (reported s)).
Proof.
  intros Hother. unfold _set_workflow_id, bind at 1, gets at 1.
  destruct (String.eqb_spec (_workflow_id (workspace s)) id) as [|_]; [done|].
  reflexivity.
Qed.

Lemma set_workflow_id_same (s : System) :
  _set_workflow_id import_graph (_workflow_id (workspace s)) s = (Ok tt, s).
Proof.
  unfold _set_workflow_id, bind, gets. simpl. by rewrite String.eqb_refl.
Qed.

(** With nothing selected and a first row, the default is that row. *)
Lemma set_default_workflow_first (s : System) (first : CustomWorkflow.t)
    (rest : list CustomWorkflow.t) :
  _workflow_id (workspace s) = "" →
  WorkflowCollection._workflows (workflows s) = first :: rest →
  _set_default_workflow import_graph s
  = _set_workflow_id import_graph (CustomWorkflow.id first) s.
Proof.
  intros Hnone Hrows.
  unfold _set_default_workflow, bind at 1 2 3, gets at 1 2, reads.
  cbn [fst snd]. rewrite Hnone.
  unfold WorkflowCollection.__len__, WorkflowCollection.__getitem__, py_getitem.
  rewrite Hrows. cbn beta iota delta [String.eqb andb length Nat.ltb Nat.leb].
  rewrite Hrows.
  change 0 with (Z.of_nat 0).
  rewrite (py_index_row (first :: rest) 0) by (simpl; lia).
  reflexivity.
Qed.

(** X13. Binding a document graph under an id the collection already holds
    never replaces the stored graph: the collection is left as it is.  When
    that id is also the selected one, the call changes nothing at all. *)
Theorem bind_existing_keeps_graph (id : string) (graph : pyval) (s : System) :
  id ∈ ids (workflows s) →
  workflows (set_graph import_graph id graph s).2 = workflows s ∧
  (_workflow_id (workspace s) = id →
   set_graph import_graph id graph s = (Ok tt, s)).
Proof.
  intros Hin. split.
  - rewrite set_graph_workflows. simpl.
    by destruct (find_cases (workflows s) id) as [[_ [wf ->]]|[Hnew _]].
  - intros Hsel. unfold set_graph, bind at 1 2, reads.
    destruct (find_cases (workflows s) id) as [[_ [wf ->]]|[Hnew _]]; [|done].
    unfold ret, _set_workflow_id, bind, gets. simpl.
    by rewrite Hsel, String.eqb_refl.
Qed.

End Reactions.

Lemma bind_existing_keeps_graph_witness :
  CustomWorkspace.workflows
    (CustomWorkspace.set_graph sample_import "second" (VInt 9) running_system).2
  = CustomWorkspace.workflows running_system ∧
  (CustomWorkspace._workflow_id (CustomWorkspace.workspace running_system)
   = "second" →
   CustomWorkspace.set_graph sample_import "second" (VInt 9) running_system
   = (Ok tt, running_system)).
Proof.
  apply (bind_existing_keeps_graph sample_import "second" (VInt 9) running_system).
  apply (bool_decide_unpack _). by vm_compute.
Defined.


Section Publications.
Import CustomWorkspace.
Variable import_graph : pyval -> result ComfyWorkflow.

(** X15. A publication under the selected id refreshes the workspace: the
    entry keeps its row and takes the published graph, the workspace refers
    to that entry and holds the parsed graph and the schema extracted from
    it, the stored values are coerced against that schema, and
    [graph_changed] is emitted. *)
Theorem publish_selected_refreshes (connection : Connection.t) (id : string)
    (graph : pyval) (g : ComfyWorkflow) (coerced : gmap string pyval)
    (s : System) :
  _workflow_id (workspace s) = id →
  id ∈ ids (workflows s) →
  Connection.getitem connection id = Ok graph →
  import_graph graph = Ok g →
  _coerce (_params (workspace s)) (_gather_params g) = Some coerced →
  ∃ r wf s',
    WorkflowCollection._workflows (workflows s) !! r = Some wf ∧
    CustomWorkflow.id wf = id ∧
    CustomWorkspace._process_remote_workflow import_graph connection id s
    = (Ok tt, s') ∧
    WorkflowCollection._workflows (workflows s')
    = alter (CustomWorkflow.with_graph graph) r
        (WorkflowCollection._workflows (workflows s)) ∧
    workspace s'
    = mk id coerced (Some r) (Some g) (_gather_params g)
        (emitted (workspace s) ++ [graph_changed]) ∧
    reported s' = reported s ∧
    workflow s' = Some (CustomWorkflow.with_graph graph wf).
Proof.
  intros Hsel Hin Hget Hparse Hcoerce.
  destruct (process_cases (CustomWorkflow.make3 id remote graph) (workflows s))
    as [(r & wf & Hr & Hid & _ & Hrun)|[Hnew _]]; [|done].
  simpl in Hid, Hrun.
  exists r, wf. eexists. split_and!; [done | done | | | | |].
  - rewrite (publish_unfold _ _ _ _ _ _ s Hget Hrun), deliver_data_changed.
    rewrite (update_workflow_selected import_graph _ r
               (CustomWorkflow.with_graph graph wf) g coerced).
    + reflexivity.
    + simpl. by rewrite list_lookup_alter_eq, Hr.
    + simpl. congruence.
    + done.
    + done.
  - done.
  - simpl. by rewrite Hsel.
  - done.
  - unfold workflow. simpl. by rewrite list_lookup_alter_eq, Hr.
Qed.

(** X16. A publication under the selected id whose graph does not parse
    leaves the workspace half updated: the collection holds the published
    graph and the workspace refers to that entry, while the parsed graph, the
    schema and the values the workspace holds are still the old ones, and
    [graph_changed] is not emitted. *)
Theorem publish_selected_unparsed (connection : Connection.t) (id : string)
    (graph : pyval) (e : exn) (s : System) :
  _workflow_id (workspace s) = id →
  id ∈ ids (workflows s) →
  Connection.getitem connection id = Ok graph →
  import_graph graph = Raise e →
  ∃ r wf,
    WorkflowCollection._workflows (workflows s) !! r = Some wf ∧
    CustomWorkflow.id wf = id ∧
    let s' :=
      (CustomWorkspace._process_remote_workflow import_graph connection id s).2 in
    workflow s' = Some (CustomWorkflow.with_graph graph wf) ∧
    _graph (workspace s') = _graph (workspace s) ∧
    _metadata (workspace s') = _metadata (workspace s) ∧
    _params (workspace s') = _params (workspace s) ∧
    emitted (workspace s') = emitted (workspace s).
Proof.
  intros Hsel Hin Hget Hparse.
  destruct (process_cases (CustomWorkflow.make3 id remote graph) (workflows s))
    as [(r & wf & Hr & Hid & _ & Hrun)|[Hnew _]]; [|done].
  simpl in Hid, Hrun.
  exists r, wf. split; [done|]. split; [done|].
  rewrite (publish_unfold _ _ _ _ _ _ s Hget Hrun), deliver_data_changed.
  rewrite (update_workflow_unparsed import_graph _ r
             (CustomWorkflow.with_graph graph wf) e).
  - cbn zeta. split_and!; try done.
    unfold workflow. simpl. by rewrite list_lookup_alter_eq, Hr.
  - simpl. by rewrite list_lookup_alter_eq, Hr.
  - simpl. congruence.
  - done.
Qed.

(** X17. The first workflow to enter an empty collection while nothing is
    selected becomes the selected one: after the publication of a graph that
    parses, the collection holds the workflow as its only row and the
    workspace has its id, refers to that row, holds the parsed graph, its
    schema and the coerced values, and has emitted [workflow_id_changed],
    [modified] and [graph_changed]. *)
Theorem first_insertion_selects (connection : Connection.t) (id : string)
    (graph : pyval) (g : ComfyWorkflow) (coerced : gmap string pyval)
    (s : System) :
  WorkflowCollection._workflows (workflows s) = [] →
  _workflow_id (workspace s) = "" →
  id ≠ "" →
  Connection.getitem connection id = Ok graph →
  import_graph graph = Ok g →
  _coerce (_params (workspace s)) (_gather_params g) = Some coerced →
  CustomWorkspace._process_remote_workflow import_graph connection id s
  = (Ok tt,
     mkSystem
       (WorkflowCollection.mk [CustomWorkflow.make3 id remote graph])
       (mk id coerced (Some 0%nat) (Some g) (_gather_params g)
          (emitted (workspace s)
           ++ [workflow_id_changed id; modified "workflow_id"; graph_changed]))
       (reported s)).
Proof.
  intros Hempty Hnone Hid Hget Hparse Hcoerce.
  assert (WorkflowCollection._process (CustomWorkflow.make3 id remote graph)
            (workflows s)
          = Ok (WorkflowCollection.mk [CustomWorkflow.make3 id remote graph],
                [rowsInserted 0 0])) as Hrun.
  { unfold WorkflowCollection._process, WorkflowCollection.find_index,
      WorkflowCollection.append. by rewrite Hempty. }
  rewrite (publish_unfold _ _ _ _ _ _ s Hget Hrun), deliver_rows_inserted.
  rewrite (set_default_workflow_first import_graph _
             (CustomWorkflow.make3 id remote graph) []) by done.
  rewrite set_workflow_id_other by (simpl; congruence).
  cbn [workflows workspace reported WorkflowCollection.find_index
       WorkflowCollection._workflows WorkflowCollection.find_index_from
       CustomWorkflow.make3 CustomWorkflow.id].
  rewrite String.eqb_refl.
  rewrite (update_workflow_selected import_graph _ 0
             (CustomWorkflow.make3 id remote graph) g coerced);
    [|done..].
  simpl. by rewrite <- !app_assoc.
Qed.
End Publications.

Lemma publish_selected_refreshes_witness :
  ∃ r wf s',
    WorkflowCollection._workflows (CustomWorkspace.workflows running_system) !! r
    = Some wf ∧
    CustomWorkflow.id wf = "second" ∧
    CustomWorkspace._process_remote_workflow sample_import publishing_backend
      "second" running_system
    = (Ok tt, s') ∧
    WorkflowCollection._workflows (CustomWorkspace.workflows s')
    = alter (CustomWorkflow.with_graph (VDict [("1", VDict [])])) r
        (WorkflowCollection._workflows (CustomWorkspace.workflows running_system)) ∧
    CustomWorkspace.workspace s'
    = CustomWorkspace.mk "second" {[ "Steps" := VInt 7 ]} (Some r)
        (Some steps_graph) (_gather_params steps_graph)
        (CustomWorkspace.emitted (CustomWorkspace.workspace running_system)
         ++ [CustomWorkspace.graph_changed]) ∧
    CustomWorkspace.reported s' = CustomWorkspace.reported running_system ∧
    CustomWorkspace.workflow s'
    = Some (CustomWorkflow.with_graph (VDict [("1", VDict [])]) wf).
Proof.
  apply (publish_selected_refreshes sample_import publishing_backend "second"
           (VDict [("1", VDict [])]) steps_graph {[ "Steps" := VInt 7 ]}
           running_system).
  - reflexivity.
  - apply (bool_decide_unpack _). by vm_compute.
  - reflexivity.
  - reflexivity.
  - reflexivity.
Defined.

Lemma publish_selected_unparsed_witness :
  ∃ r wf,
    WorkflowCollection._workflows (CustomWorkspace.workflows running_system) !! r
    = Some wf ∧
    CustomWorkflow.id wf = "second" ∧
    let s' :=
      (CustomWorkspace._process_remote_workflow sample_import broken_backend
         "second" running_system).2 in
    CustomWorkspace.workflow s' = Some (CustomWorkflow.with_graph (VInt 0) wf) ∧
    CustomWorkspace._graph (CustomWorkspace.workspace s')
    = CustomWorkspace._graph (CustomWorkspace.workspace running_system) ∧
    CustomWorkspace._metadata (CustomWorkspace.workspace s')
    = CustomWorkspace._metadata (CustomWorkspace.workspace running_system) ∧
    CustomWorkspace._params (CustomWorkspace.workspace s')
    = CustomWorkspace._params (CustomWorkspace.workspace running_system) ∧
    CustomWorkspace.emitted (CustomWorkspace.workspace s')
    = CustomWorkspace.emitted (CustomWorkspace.workspace running_system).
Proof.
  apply (publish_selected_unparsed sample_import broken_backend "second"
           (VInt 0) ParseError running_system).
  - reflexivity.
  - apply (bool_decide_unpack _). by vm_compute.
  - reflexivity.
  - reflexivity.
Defined.

Lemma first_insertion_selects_witness :
  CustomWorkspace._process_remote_workflow sample_import publishing_backend
    "third" empty_system
  = (Ok tt,
     CustomWorkspace.mkSystem
       (WorkflowCollection.mk [CustomWorkflow.make3 "third" remote (VDict [])])
       (CustomWorkspace.mk "third" {[ "Steps" := VInt 0 ]} (Some 0%nat)
          (Some steps_graph) (_gather_params steps_graph)
          (CustomWorkspace.emitted (CustomWorkspace.workspace empty_system)
           ++ [CustomWorkspace.workflow_id_changed "third";
               CustomWorkspace.modified "workflow_id";
               CustomWorkspace.graph_changed]))
       (CustomWorkspace.reported empty_system)).
Proof.
  apply (first_insertion_selects sample_import publishing_backend "third"
           (VDict []) steps_graph {[ "Steps" := VInt 0 ]} empty_system).
  - reflexivity.
  - reflexivity.
  - discriminate.
  - reflexivity.
  - reflexivity.
  - reflexivity.
Defined.

(** ** Constructing the workspace and binding a document *)

Section Binding.
Import CustomWorkspace.
Variable import_graph : pyval -> result ComfyWorkflow.

Lemma find_index_first_row (first : CustomWorkflow.t)
    (rest : list CustomWorkflow.t) :
  WorkflowCollection.find_index (WorkflowCollection.mk (first :: rest))
    (CustomWorkflow.id first) = RowIndex 0.
Proof.
  unfold WorkflowCollection.find_index. simpl. by rewrite String.eqb_refl.
Qed.

(** Coercing nothing gives the defaults. *)
Lemma coerce_empty_defaults (types : list CustomParam.t)
    (out : gmap string pyval) (k : string) (v : pyval) :
  _coerce ∅ types = Some out →
  out !! k = Some v →
  ∃ t, t ∈ types ∧ CustomParam.name t = VStr k ∧ v = CustomParam.default t.
Proof.
  intros Hout Hk. rewrite (coerce_lookup ∅ out types k Hout) in Hk.
  destruct (deciding k types) as [t|] eqn:Hd; [|done].
  apply deciding_Some in Hd as [Hin Hname]. exists t. split_and!; [done..|].
  simpl in Hk. unfold dict_get in Hk. rewrite lookup_empty in Hk.
  by inversion Hk.
Qed.

(** X18. A workspace constructed over a collection that is not empty selects
    the first row of the collection (its first row as stored, not the first
    of the sorted view): when that workflow's graph parses, the workspace
    holds its id, the parsed graph and the extracted schema, refers to row 0,
    and starts with the defaults of the schema as its values. *)
Theorem workspace_init_selects_first (first : CustomWorkflow.t)
    (rest : list CustomWorkflow.t) (g : ComfyWorkflow)
    (defaults : gmap string pyval) :
  CustomWorkflow.id first ≠ "" →
  import_graph (CustomWorkflow.graph first) = Ok g →
  _coerce ∅ (_gather_params g) = Some defaults →
  CustomWorkspace.__init__ import_graph (WorkflowCollection.mk (first :: rest))
  = (Ok tt,
     mkSystem (WorkflowCollection.mk (first :: rest))
       (mk (CustomWorkflow.id first) defaults (Some 0%nat) (Some g)
          (_gather_params g)
          [workflow_id_changed (CustomWorkflow.id first);
           modified "workflow_id"; graph_changed])
       []) ∧
  (∀ k v, defaults !! k = Some v →
          ∃ t, t ∈ _gather_params g ∧ CustomParam.name t = VStr k ∧
               v = CustomParam.default t).
Proof.
  intros Hid Hparse Hcoerce. split.
  - unfold CustomWorkspace.__init__.
    rewrite (set_default_workflow_first import_graph _ first rest) by done.
    rewrite set_workflow_id_other by (simpl; congruence).
    cbn [workflows]. rewrite find_index_first_row.
    by rewrite (update_workflow_selected import_graph _ 0 first g defaults).
  - intros k v. by apply coerce_empty_defaults.
Qed.

(** X19. A workspace cannot be constructed over a collection whose first
    workflow does not parse: the constructor raises the parser's
    exception. *)
Theorem workspace_init_unparsed (first : CustomWorkflow.t)
    (rest : list CustomWorkflow.t) (e : exn) :
  CustomWorkflow.id first ≠ "" →
  import_graph (CustomWorkflow.graph first) = Raise e →
  (CustomWorkspace.__init__ import_graph (WorkflowCollection.mk (first :: rest))).1
  = Raise e.
Proof.
  intros Hid Hparse. unfold CustomWorkspace.__init__.
  rewrite (set_default_workflow_first import_graph _ first rest) by done.
  rewrite set_workflow_id_other by (simpl; congruence).
  cbn [workflows]. rewrite find_index_first_row.
  by rewrite (update_workflow_unparsed import_graph _ 0 first e).
Qed.

(** What binding a graph under a new id does, step by step: the document's
    workflow is appended, the insertion is delivered, the id is selected. *)
Lemma bind_new_unfold (id : string) (graph : pyval) (s : System) :
  id ∉ ids (workflows s) →
  set_graph import_graph id graph s
  = match deliver import_graph
            [rowsInserted (length (WorkflowCollection._workflows (workflows s)))
                          (length (WorkflowCollection._workflows (workflows s)))]
            (mkSystem
               (WorkflowCollection.mk
                  (WorkflowCollection._workflows (workflows s)
                   ++ [CustomWorkflow.make3 id document graph]))
               (workspace s) (reported s)) with
    | (Ok _, s1) => _set_workflow_id import_graph id s1
    | (Raise e, s1) => (Raise e, s1)
    end.
Proof.
  intros Hnew. unfold set_graph, bind at 1 2, reads.
  destruct (find_cases (workflows s) id) as [[Hin _]|[_ ->]]; [done|].
  unfold on_collection, bind, gets, lift, put_workflows.
  cbn beta iota delta [fst snd WorkflowCollection.append workflows workspace
                       reported].
  by destruct (deliver import_graph _ _) as [[[]|e] s1].
Qed.

Lemma find_index_appended (c : WorkflowCollection.t) (w : CustomWorkflow.t) :
  CustomWorkflow.id w ∉ ids c →
  WorkflowCollection.find_index
    (WorkflowCollection.mk (WorkflowCollection._workflows c ++ [w]))
    (CustomWorkflow.id w)
  = RowIndex (length (WorkflowCollection._workflows c)).
Proof.
  intros Hnew.
  apply (find_first (WorkflowCollection.mk (WorkflowCollection._workflows c ++ [w]))
           (CustomWorkflow.id w) (length (WorkflowCollection._workflows c)) w).
  - simpl. by rewrite lookup_app_r, Nat.sub_diag by lia.
  - done.
  - intros j wf' Hlt Hj. simpl in Hj. rewrite lookup_app_l in Hj by done.
    intros Heq. apply Hnew. rewrite <- Heq. by eapply row_id_known.
Qed.

(** X20. Binding a document graph under a new id, while another workflow is
    selected: the document's workflow becomes the last row of the collection
    and the selected workflow; when its graph parses, the workspace holds the
    parsed graph and its schema, the stored values coerced against that
    schema, and has emitted [workflow_id_changed], [modified] and
    [graph_changed], in that order. *)
Theorem bind_new_selects (id : string) (graph : pyval) (g : ComfyWorkflow)
    (coerced : gmap string pyval) (s : System) :
  id ∉ ids (workflows s) →
  _workflow_id (workspace s) ≠ "" →
  _workflow_id (workspace s) ≠ id →
  import_graph graph = Ok g →
  _coerce (_params (workspace s)) (_gather_params g) = Some coerced →
  set_graph import_graph id graph s
  = (Ok tt,
     mkSystem
       (WorkflowCollection.mk
          (WorkflowCollection._workflows (workflows s)
           ++ [CustomWorkflow.make3 id document graph]))
       (mk id coerced
          (Some (length (WorkflowCollection._workflows (workflows s))))
          (Some g) (_gather_params g)
          (emitted (workspace s)
           ++ [workflow_id_changed id; modified "workflow_id"; graph_changed]))
       (reported s)).
Proof.
  intros Hnew Hsome Hother Hparse Hcoerce.
  rewrite bind_new_unfold by done. rewrite deliver_rows_inserted.
  rewrite set_default_workflow_selected by done.
  rewrite set_workflow_id_other by done.
  cbn [workflows workspace reported].
  pose proof (find_index_appended (workflows s)
                (CustomWorkflow.make3 id document graph) Hnew) as Hidx.
  change (CustomWorkflow.id (CustomWorkflow.make3 id document graph))
    with id in Hidx.
  rewrite Hidx.
  rewrite (update_workflow_selected import_graph _ _
             (CustomWorkflow.make3 id document graph) g coerced).
  - simpl. by rewrite <- !app_assoc.
  - simpl. by rewrite lookup_app_r, Nat.sub_diag by lia.
  - done.
  - done.
  - done.
Qed.

(** X21. Binding a document graph that does not parse, under a new id and
    with another workflow selected, raises the parser's exception after the
    fact: the workflow is in the collection, its id is the selected one and
    the workspace refers to it, but the parsed graph, the schema and the
    values the workspace holds are still those of the workflow selected
    before. *)
Theorem bind_new_unparsed (id : string) (graph : pyval) (e : exn) (s : System) :
  id ∉ ids (workflows s) →
  _workflow_id (workspace s) ≠ "" →
  _workflow_id (workspace s) ≠ id →
  import_graph graph = Raise e →
  set_graph import_graph id graph s
  = (Raise e,
     mkSystem
       (WorkflowCollection.mk
          (WorkflowCollection._workflows (workflows s)
           ++ [CustomWorkflow.make3 id document graph]))
       (mk id (_params (workspace s))
          (Some (length (WorkflowCollection._workflows (workflows s))))
          (_graph (workspace s)) (_metadata (workspace s))
          (emitted (workspace s)
           ++ [workflow_id_changed id; modified "workflow_id"]))
       (reported s)).
Proof.
  intros Hnew Hsome Hother Hparse.
  rewrite bind_new_unfold by done. rewrite deliver_rows_inserted.
  rewrite set_default_workflow_selected by done.
  rewrite set_workflow_id_other by done.
  cbn [workflows workspace reported].
  pose proof (find_index_appended (workflows s)
                (CustomWorkflow.make3 id document graph) Hnew) as Hidx.
  change (CustomWorkflow.id (CustomWorkflow.make3 id document graph))
    with id in Hidx.
  rewrite Hidx.
  rewrite (update_workflow_unparsed import_graph _ _
             (CustomWorkflow.make3 id document graph) e).
  - unfold set_workflow, emit, set_workflow_id_field. simpl.
    by rewrite <- !app_assoc.
  - simpl. by rewrite lookup_app_r, Nat.sub_diag by lia.
  - done.
  - done.
Qed.

(** X22. Binding a document graph under the id that is selected already but
    that the collection did not hold: the workflow is appended and that is
    all.  The setter sees the id unchanged and resolves nothing, so the
    workspace is left exactly as it was. *)
Theorem bind_selected_absent (graph : pyval) (s : System) :
  _workflow_id (workspace s) ∉ ids (workflows s) →
  _workflow_id (workspace s) ≠ "" →
  set_graph import_graph (_workflow_id (workspace s)) graph s
  = (Ok tt,
     mkSystem
       (WorkflowCollection.mk
          (WorkflowCollection._workflows (workflows s)
           ++ [CustomWorkflow.make3 (_workflow_id (workspace s)) document graph]))
       (workspace s) (reported s)).
Proof.
  intros Hnew Hsome.
  rewrite bind_new_unfold by done. rewrite deliver_rows_inserted.
  rewrite set_default_workflow_selected by done.
  apply (set_workflow_id_same import_graph
           (mkSystem
              (WorkflowCollection.mk
                 (WorkflowCollection._workflows (workflows s)
                  ++ [CustomWorkflow.make3 (_workflow_id (workspace s))
                        document graph]))
              (workspace s) (reported s))).
Qed.
End Binding.

Lemma workspace_init_selects_first_witness :
  CustomWorkspace.__init__ sample_import
    (WorkflowCollection.mk
       [CustomWorkflow.make3 "first" local (VDict []);
        CustomWorkflow.make3 "second" remote (VDict [])])
  = (Ok tt,
     CustomWorkspace.mkSystem
       (WorkflowCollection.mk
          [CustomWorkflow.make3 "first" local (VDict []);
           CustomWorkflow.make3 "second" remote (VDict [])])
       (CustomWorkspace.mk "first" {[ "Steps" := VInt 0 ]} (Some 0%nat)
          (Some steps_graph) (_gather_params steps_graph)
          [CustomWorkspace.workflow_id_changed "first";
           CustomWorkspace.modified "workflow_id";
           CustomWorkspace.graph_changed])
       []) ∧
  (∀ k v, ({[ "Steps" := VInt 0 ]} : gmap string pyval) !! k = Some v →
          ∃ t, t ∈ _gather_params steps_graph ∧ CustomParam.name t = VStr k ∧
               v = CustomParam.default t).
Proof.
  apply (workspace_init_selects_first sample_import
           (CustomWorkflow.make3 "first" local (VDict []))
           [CustomWorkflow.make3 "second" remote (VDict [])]
           steps_graph {[ "Steps" := VInt 0 ]}).
  - discriminate.
  - reflexivity.
  - reflexivity.
Defined.

Lemma workspace_init_unparsed_witness :
  (CustomWorkspace.__init__ sample_import
     (WorkflowCollection.mk [CustomWorkflow.make3 "bad" local (VInt 0)])).1
  = Raise ParseError.
Proof.
  apply (workspace_init_unparsed sample_import
           (CustomWorkflow.make3 "bad" local (VInt 0)) [] ParseError).
  - discriminate.
  - reflexivity.
Defined.

Lemma bind_new_selects_witness :
  CustomWorkspace.set_graph sample_import "doc" (VDict []) running_system
  = (Ok tt,
     CustomWorkspace.mkSystem
       (WorkflowCollection.mk
          (WorkflowCollection._workflows (CustomWorkspace.workflows running_system)
           ++ [CustomWorkflow.make3 "doc" document (VDict [])]))
       (CustomWorkspace.mk "doc" {[ "Steps" := VInt 7 ]}
          (Some (length (WorkflowCollection._workflows
                           (CustomWorkspace.workflows running_system))))
          (Some steps_graph) (_gather_params steps_graph)
          (CustomWorkspace.emitted (CustomWorkspace.workspace running_system)
           ++ [CustomWorkspace.workflow_id_changed "doc";
               CustomWorkspace.modified "workflow_id";
               CustomWorkspace.graph_changed]))
       (CustomWorkspace.reported running_system)).
Proof.
  apply (bind_new_selects sample_import "doc" (VDict []) steps_graph
           {[ "Steps" := VInt 7 ]} running_system).
  - apply (bool_decide_unpack _). by vm_compute.
  - discriminate.
  - discriminate.
  - reflexivity.
  - reflexivity.
Defined.

Lemma bind_new_unparsed_witness :
  CustomWorkspace.set_graph sample_import "doc" (VInt 0) running_system
  = (Raise ParseError,
     CustomWorkspace.mkSystem
       (WorkflowCollection.mk
          (WorkflowCollection._workflows (CustomWorkspace.workflows running_system)
           ++ [CustomWorkflow.make3 "doc" document (VInt 0)]))
       (CustomWorkspace.mk "doc"
          (CustomWorkspace._params (CustomWorkspace.workspace running_system))
          (Some (length (WorkflowCollection._workflows
                           (CustomWorkspace.workflows running_system))))
          (CustomWorkspace._graph (CustomWorkspace.workspace running_system))
          (CustomWorkspace._metadata (CustomWorkspace.workspace running_system))
          (CustomWorkspace.emitted (CustomWorkspace.workspace running_system)
           ++ [CustomWorkspace.workflow_id_changed "doc";
               CustomWorkspace.modified "workflow_id"]))
       (CustomWorkspace.reported running_system)).
Proof.
  apply (bind_new_unparsed sample_import "doc" (VInt 0) ParseError running_system).
  - apply (bool_decide_unpack _). by vm_compute.
  - discriminate.
  - discriminate.
  - reflexivity.
Defined.

Lemma bind_selected_absent_witness :
  CustomWorkspace.set_graph sample_import
    (CustomWorkspace._workflow_id (CustomWorkspace.workspace dangling_system))
    (VDict []) dangling_system
  = (Ok tt,
     CustomWorkspace.mkSystem
       (WorkflowCollection.mk
          (WorkflowCollection._workflows (CustomWorkspace.workflows dangling_system)
           ++ [CustomWorkflow.make3
                 (CustomWorkspace._workflow_id
                    (CustomWorkspace.workspace dangling_system))
                 document (VDict [])]))
       (CustomWorkspace.workspace dangling_system)
       (CustomWorkspace.reported dangling_system)).
Proof.
  apply (bind_selected_absent sample_import (VDict []) dangling_system).
  - apply (bool_decide_unpack _). by vm_compute.
  - discriminate.
Defined.

(** ** A local file and a published workflow under one id *)

Section Overlap.
Import WorkflowCollection.
Implicit Types (c : WorkflowCollection.t) (a : Arrival).

Lemma first_row_unique c id r r' :
  first_row c id r → first_row c id r' → r = r'.
Proof.
  intros [(wf & Hr & Hid) Hmin] [(wf' & Hr' & Hid') Hmin'].
  destruct (Nat.lt_trichotomy r r') as [Hlt|[Heq|Hgt]]; [|done|].
  - exfalso. by apply (Hmin' r wf).
  - exfalso. by apply (Hmin r' wf').
Qed.

(** An arrival leaves the first row of an id where it is. *)
Lemma first_row_ingest a c id r :
  first_row c id r → first_row (ingest a c) id r.
Proof.
  intros [(wf & Hr & Hid) Hmin]. split.
  - destruct (ingest_keeps_rows a c r wf Hr) as (wf' & Hr' & Hid' & _).
    exists wf'. split; [done | congruence].
  - intros j wf' Hlt Hj Heq.
    assert (is_Some (_workflows c !! j)) as [wf0 Hj0].
    { apply lookup_lt_is_Some. apply lookup_lt_Some in Hr. lia. }
    destruct (ingest_keeps_rows a c j wf0 Hj0) as (wf1 & Hj1 & Hid1 & _).
    rewrite Hj in Hj1. inversion Hj1; subst wf1.
    apply (Hmin j wf0 Hlt Hj0). congruence.
Qed.

(** The graph at the first row of [id] after the backend's workflow [k] was
    ingested: the published graph when [k] is [id], the graph that was there
    otherwise. *)
Lemma remote_graph_at connection k c id r :
  first_row c id r →
  graph_at (ingest (FromRemote connection k) c) r
  = match Connection.getitem connection k with
    | Ok graph => if decide (k = id) then Some graph else graph_at c r
    | Raise _ => graph_at c r
    end.
Proof.
  intros [(wf & Hr & Hid) Hmin]. unfold graph_at. simpl.
  unfold _process_remote_workflow.
  destruct (Connection.getitem connection k) as [graph|e]; [|done].
  destruct (process_cases (CustomWorkflow.make3 k remote graph) c)
    as [(r' & wf' & Hr' & Hid' & Hmin' & ->)|[Hnew ->]]; simpl in *.
  - destruct (decide (k = id)) as [->|Hne].
    + assert (r' = r) as ->.
      { apply (first_row_unique c id); split; eauto. }
      by rewrite list_lookup_alter_eq, Hr.
    + rewrite list_lookup_alter_ne; [done|]. intros ->. congruence.
  - rewrite decide_False.
    + by rewrite lookup_app_l by (by eapply lookup_lt_Some).
    + intros ->. apply Hnew. rewrite <- Hid. by eapply row_id_known.
Qed.

Lemma ingest_all_cons a (rest : list Arrival) c :
  ingest_all (a :: rest) c = ingest_all rest (ingest a c).
Proof. reflexivity. Qed.

Lemma first_row_ingest_all (arrivals : list Arrival) c id r :
  first_row c id r → first_row (ingest_all arrivals c) id r.
Proof.
  revert c. induction arrivals as [|a rest IH]; intros c Hc; [done|].
  rewrite ingest_all_cons. apply IH. by apply first_row_ingest.
Qed.

Lemma remote_phase_graph connection keys c id r graph :
  first_row c id r →
  Connection.getitem connection id = Ok graph →
  id ∈ keys ∨ graph_at c r = Some graph →
  graph_at (ingest_all (FromRemote connection <$> keys) c) r = Some graph.
Proof.
  intros Hfirst Hget. revert c Hfirst.
  induction keys as [|k rest IH]; intros c Hfirst Hseen.
  - simpl. destruct Hseen as [Hin|Hg]; [by apply elem_of_nil in Hin | done].
  - rewrite fmap_cons, ingest_all_cons.
    apply IH; [by apply first_row_ingest|].
    rewrite (remote_graph_at connection k c id r Hfirst).
    destruct (decide (k = id)) as [->|Hne].
    + rewrite Hget. by right.
    + destruct Hseen as [Hin|Hg].
      * left. apply elem_of_cons in Hin as [?|?]; [congruence | done].
      * right. by destruct (Connection.getitem connection k).
Qed.

Lemma getitem_key connection id graph :
  Connection.getitem connection id = Ok graph → id ∈ Connection.keys connection.
Proof.
  unfold Connection.getitem, Connection.keys.
  induction (Connection.workflows connection) as [|[k g] l IH]; simpl; [done|].
  destruct (String.eqb_spec k id) as [->|Hne]; [by left|].
  intros H. right. by apply IH.
Qed.

(** The rows the scan of the files leaves are all of local origin. *)
Lemma scanned_rows_local files r wf :
  _workflows (ingest_all (FromFile <$> files) (mk [])) !! r = Some wf →
  CustomWorkflow.source wf = local.
Proof.
  intros Hr.
  destruct (ingest_all_row_origin _ _ r wf Hr)
    as [(wf0 & Hwf0 & _)|(a & w & Hin & Hw & _ & Hsrc & _)]; [done|].
  apply list_elem_of_fmap in Hin as (file & -> & _). simpl in Hw.
  destruct (LocalFile.content file); [|done]. by inversion Hw; subst w.
Qed.
End Overlap.

(** X23. When a local file and the backend's snapshot share an id, the
    initial load gives one entry under that id: it keeps the local origin of
    the file, registered first, and holds the graph the backend published,
    written last. *)
Theorem init_local_entry_takes_remote_graph (connection : Connection.t)
    (files : list LocalFile.t) (file : LocalFile.t) (data graph : pyval) :
  file ∈ files →
  LocalFile.content file = Ok data →
  Connection.getitem connection (LocalFile.stem file) = Ok graph →
  ∃ c log wf,
    WorkflowCollection.__init__ connection files = (Ok c, log) ∧
    WorkflowCollection.get c (LocalFile.stem file) = Ok wf ∧
    CustomWorkflow.id wf = LocalFile.stem file ∧
    CustomWorkflow.source wf = local ∧
    CustomWorkflow.graph wf = graph.
Proof.
  intros Hin Hdata Hget.
  set (scanned := ingest_all (FromFile <$> files) (WorkflowCollection.mk [])).
  set (remotes := FromRemote connection <$> Connection.keys connection).
  assert (LocalFile.stem file ∈ ids scanned) as Hstem.
  { apply (ingest_all_arrived _ _ (FromFile file)
             (CustomWorkflow.make3 (LocalFile.stem file) local data)).
    - apply list_elem_of_fmap. by exists file.
    - simpl. by rewrite Hdata. }
  destruct (first_row_of_id scanned _ Hstem) as (r & wf1 & Hr1 & Hid1 & Hmin1).
  assert (first_row scanned (LocalFile.stem file) r) as Hfirst.
  { split; [by exists wf1 | done]. }
  assert (first_row (ingest_all remotes scanned) (LocalFile.stem file) r)
    as [(wf & Hr & Hid) Hmin].
  { by apply first_row_ingest_all. }
  exists (ingest_all remotes scanned), (failures files), wf. split_and!.
  - rewrite init_ingest. by rewrite ingest_all_app.
  - unfold WorkflowCollection.get.
    by destruct (find_first _ _ r wf Hr Hid Hmin) as [_ ->].
  - done.
  - destruct (ingest_all_keeps_rows remotes scanned r wf1 Hr1)
      as (wf' & Hr' & _ & Hsrc & _).
    rewrite Hr in Hr'. inversion Hr'; subst wf'.
    rewrite Hsrc. by eapply scanned_rows_local.
  - pose proof (remote_phase_graph connection (Connection.keys connection)
                  scanned _ r graph Hfirst Hget) as Hg.
    unfold graph_at in Hg. fold remotes in Hg. rewrite Hr in Hg.
    simpl in Hg. assert (Some (CustomWorkflow.graph wf) = Some graph) as [=]; [|done].
    apply Hg. left. by eapply getitem_key.
Qed.

Lemma init_local_entry_takes_remote_graph_witness :
  ∃ c log wf,
    WorkflowCollection.__init__ overlapping_backend [corrupt_file; valid_file]
    = (Ok c, log) ∧
    WorkflowCollection.get c (LocalFile.stem valid_file) = Ok wf ∧
    CustomWorkflow.id wf = LocalFile.stem valid_file ∧
    CustomWorkflow.source wf = local ∧
    CustomWorkflow.graph wf = VInt 5.
Proof.
  apply (init_local_entry_takes_remote_graph overlapping_backend
           [corrupt_file; valid_file] valid_file (VDict []) (VInt 5)).
  - right. by left.
  - reflexivity.
  - reflexivity.
Defined.

(** ** Selecting an id the collection does not hold *)

(** X24. Selecting an id that no entry holds, in a collection that is not
    empty, returns normally and changes the id only: the workspace goes on
    holding the workflow, the parsed graph, the schema and the values of the
    workflow selected before, and emits [workflow_id_changed] and [modified]
    but not [graph_changed]. *)
Theorem select_absent_keeps_active
    (import_graph : pyval -> result ComfyWorkflow) (id : string)
    (s : CustomWorkspace.System) :
  id ∉ ids (CustomWorkspace.workflows s) →
  WorkflowCollection._workflows (CustomWorkspace.workflows s) ≠ [] →
  CustomWorkspace._workflow_id (CustomWorkspace.workspace s) ≠ id →
  CustomWorkspace._set_workflow_id import_graph id s
  = (Ok tt,
     CustomWorkspace.mkSystem (CustomWorkspace.workflows s)
       (CustomWorkspace.mk id
          (CustomWorkspace._params (CustomWorkspace.workspace s))
          (CustomWorkspace._workflow (CustomWorkspace.workspace s))
          (CustomWorkspace._graph (CustomWorkspace.workspace s))
          (CustomWorkspace._metadata (CustomWorkspace.workspace s))
          (CustomWorkspace.emitted (CustomWorkspace.workspace s)
           ++ [CustomWorkspace.workflow_id_changed id;
               CustomWorkspace.modified "workflow_id"]))
       (CustomWorkspace.reported s)).
Proof.
  intros Habsent Hrows Hother.
  rewrite set_workflow_id_other by done.
  rewrite (find_index_absent (CustomWorkspace.workflows s) id) by done.
  set (s1 := CustomWorkspace.mkSystem _ _ _).
  unfold CustomWorkspace._update_workflow, CustomWorkspace.bind at 1.
  destruct (entry_at_invalid_last s1) as (k & wf & Hk & ->); [done|].
  unfold CustomWorkspace.bind, CustomWorkspace.gets. cbn [fst snd].
  destruct (String.eqb_spec (CustomWorkflow.id wf)
              (CustomWorkspace._workflow_id (CustomWorkspace.workspace s1)))
    as [Heq|_].
  { exfalso. apply Habsent. simpl in Heq. rewrite <- Heq.
    by eapply (row_id_known _ k). }
  unfold s1, CustomWorkspace.emit, CustomWorkspace.set_workflow_id_field.
  simpl. by rewrite <- !app_assoc.
Qed.

Lemma select_absent_keeps_active_witness :
  CustomWorkspace._set_workflow_id sample_import "ghost" running_system
  = (Ok tt,
     CustomWorkspace.mkSystem (CustomWorkspace.workflows running_system)
       (CustomWorkspace.mk "ghost"
          (CustomWorkspace._params (CustomWorkspace.workspace running_system))
          (CustomWorkspace._workflow (CustomWorkspace.workspace running_system))
          (CustomWorkspace._graph (CustomWorkspace.workspace running_system))
          (CustomWorkspace._metadata (CustomWorkspace.workspace running_system))
          (CustomWorkspace.emitted (CustomWorkspace.workspace running_system)
           ++ [CustomWorkspace.workflow_id_changed "ghost";
               CustomWorkspace.modified "workflow_id"]))
       (CustomWorkspace.reported running_system)).
Proof.
  apply (select_absent_keeps_active sample_import "ghost" running_system).
  - apply (bool_decide_unpack _). by vm_compute.
  - discriminate.
  - discriminate.
Defined.

(** ** The schema follows the graph *)

Section Schema.
Import CustomWorkspace.
Variable import_graph : pyval -> result ComfyWorkflow.

Lemma schema_ret {A : Type} (a : A) : keeps_schema (ret a).
Proof. by intros s. Qed.

Lemma schema_raise {A : Type} (e : exn) : keeps_schema (@raise A e).
Proof. by intros s. Qed.

Lemma schema_lift {A : Type} (r : result A) : keeps_schema (lift r).
Proof. by intros s. Qed.

Lemma schema_gets {A : Type} (f : System → A) : keeps_schema (gets f).
Proof. by intros s. Qed.

Lemma schema_reads {A : Type} (f : System → result A) : keeps_schema (reads f).
Proof. by intros s. Qed.

Lemma schema_put_workflows c : keeps_schema (put_workflows c).
Proof. by intros s. Qed.

Lemma schema_modify (f : CustomWorkspace.t → CustomWorkspace.t) :
  (∀ w, _graph (f w) = _graph w ∧ _metadata (f w) = _metadata w) →
  keeps_schema (modify_workspace f).
Proof.
  intros Hf s Hs. unfold schema_of_graph in *. simpl.
  destruct (Hf (workspace s)) as [-> ->]. done.
Qed.

Lemma schema_bind {A B : Type} (m : M A) (k : A → M B) :
  keeps_schema m → (∀ a, keeps_schema (k a)) → keeps_schema (bind m k).
Proof.
  intros Hm Hk s Hs. unfold bind. specialize (Hm s Hs).
  destruct (m s) as [[a|e] s']; simpl in *; [|done].
  by apply Hk.
Qed.

Lemma schema_in_slot (m : M unit) : keeps_schema m → keeps_schema (in_slot m).
Proof.
  intros Hm s Hs. unfold in_slot. specialize (Hm s Hs).
  by destruct (m s) as [[a|e] s'].
Qed.

(** Taking over a graph and its schema, one assignment after the other,
    establishes the invariant for what follows. *)
Lemma schema_taken_over {A : Type} (g : ComfyWorkflow) (k : M A) :
  keeps_schema k →
  keeps_schema
    (bind (modify_workspace (set_graph_field (Some g)))
       (λ _, bind (modify_workspace (set_metadata (_gather_params g)))
               (λ _, k))).
Proof. intros Hk s _. unfold bind, modify_workspace. simpl. by apply Hk. Qed.

Lemma schema_update_workflow idx :
  keeps_schema (_update_workflow import_graph idx).
Proof.
  unfold _update_workflow, entry_at.
  apply schema_bind.
  { apply schema_bind; [apply schema_gets|]. intros l.
    destruct (py_index l (row idx)) as [k|]; [|apply schema_raise].
    destruct (l !! k); [apply schema_ret | apply schema_raise]. }
  intros [k wf]. apply schema_bind; [apply schema_gets|]. intros current.
  destruct (String.eqb _ current); [|apply schema_ret].
  apply schema_bind; [by apply schema_modify|]. intros _.
  apply schema_bind; [apply schema_lift|]. intros g.
  apply schema_taken_over.
  apply schema_bind; [apply schema_gets|]. intros params.
  destruct (_coerce params (_gather_params g)); [|apply schema_raise].
  apply schema_bind; [by apply schema_modify | intros _; by apply schema_modify].
Qed.

Lemma schema_set_workflow_id id : keeps_schema (_set_workflow_id import_graph id).
Proof.
  unfold _set_workflow_id.
  apply schema_bind; [apply schema_gets|]. intros current.
  destruct (String.eqb current id); [apply schema_ret|].
  repeat (apply schema_bind; [by apply schema_modify|]; intros _).
  apply schema_bind; [apply schema_gets|]. intros idx.
  apply schema_update_workflow.
Qed.

Lemma schema_set_default_workflow :
  keeps_schema (_set_default_workflow import_graph).
Proof.
  unfold _set_default_workflow.
  apply schema_bind; [apply schema_gets|]. intros current.
  apply schema_bind; [apply schema_gets|]. intros n.
  destruct (_ && _); [|apply schema_ret].
  apply schema_bind; [apply schema_reads|]. intros first.
  apply schema_set_workflow_id.
Qed.

Lemma schema_deliver sigs : keeps_schema (deliver import_graph sigs).
Proof.
  induction sigs as [|sig rest IH]; [apply schema_ret|].
  apply schema_bind; [|done].
  destruct sig; apply schema_in_slot;
    [apply schema_set_default_workflow | apply schema_update_workflow].
Qed.

Lemma schema_on_collection method :
  keeps_schema (on_collection import_graph method).
Proof.
  unfold on_collection.
  apply schema_bind; [apply schema_gets|]. intros c.
  apply schema_bind; [apply schema_lift|]. intros out.
  apply schema_bind; [apply schema_put_workflows|]. intros _.
  apply schema_deliver.
Qed.

Lemma schema_handle ev : keeps_schema (handle import_graph ev).
Proof.
  destruct ev as [connection id|id graph|id]; simpl.
  - apply schema_on_collection.
  - unfold set_graph.
    apply schema_bind; [apply schema_reads|]. intros found.
    apply schema_bind; [|intros _; apply schema_set_workflow_id].
    destruct found; [apply schema_ret | apply schema_on_collection].
  - apply schema_set_workflow_id.
Qed.
End Schema.

(** X25. The schema the workspace holds is always the one extracted from the
    graph it holds: from its construction over any collection and through
    any events (publications, document binds, selections), whether they
    return or raise, the metadata is [_gather_params] of the held graph, and
    is empty while no graph is held. *)
Theorem schema_follows_graph (import_graph : pyval -> result ComfyWorkflow)
    (c : WorkflowCollection.t) (events : list Event) :
  schema_of_graph
    (CustomWorkspace.workspace
       (run import_graph events (CustomWorkspace.__init__ import_graph c).2)).
Proof.
  assert (Hrun : ∀ s, schema_of_graph (CustomWorkspace.workspace s) →
            schema_of_graph
              (CustomWorkspace.workspace (run import_graph events s))).
  { induction events as [|ev rest IH]; intros s Hs; simpl; [done|].
    apply IH. by apply schema_handle. }
  apply Hrun. unfold CustomWorkspace.__init__.
  by apply schema_set_default_workflow.
Qed.
